(** * leader-elector: the role state machine and its status markers

    A shallow embedding of the Go program of this repository.  The
    repository holds two editions of the program, which share [initStatus],
    [setRole] and [startHealthServer] word for word:

    - [MainGo]   is [src/main.go]: the refresh goroutine touches its marker
      every 5 seconds, and there is no pod labelling;
    - [PodLabel] is [src/unnamed/part_000]: the refresh goroutine ticks every
      2 seconds, rewrites the marker when [currentRole] is "leader", and the
      callbacks patch the pod's [role] label when LABEL_POD_ROLE is "true".

    Package-level variables, the status directory, the contexts and the
    goroutines live in one record, [World]; every function of the program is
    a function on [World] (explicit state passing).  What the operating
    system decides (write faults, the clock, which [select] case fires) is
    an input of the model. *)

From Stdlib Require Import ZArith Lia.
From stdpp Require Import base decidable option strings list gmap.

(** ** Time

    [time.Duration] is a count of nanoseconds. *)

Module time.
Definition Second : Z := 1000000000.
End time.

Inductive Edition := MainGo | PodLabel.

(** [const tickInterval] (main.go:30, part_000:31). *)
Definition tickInterval (ed : Edition) : Z :=
  match ed with
  | MainGo => 5 * time.Second
  | PodLabel => 2 * time.Second
  end.

Definition defaultStatusDir : string := "/tmp/leader_status".

(** ** The status directory *)

(** A regular file: its bytes and its modification time. *)
Record File := mkFile { content : string; modTime : Z }.

Inductive Errno := ENOENT | EIO.

(** Who issued a file operation: the goroutine running the callbacks, or
    the refresh goroutine of a given number.  The source has no such tag;
    it is recorded in the trace only. *)
Inductive Actor := Callback | Refresh (tid : nat).

Inductive Event :=
  | EvCancel (ctx : nat)
  | EvRemove (name : string) (ok : bool)
  | EvWriteFile (who : Actor) (name data : string) (ok : bool)
  | EvChtimes (who : Actor) (name : string) (mtime : Z) (ok : bool)
  | EvPrintf (format : string) (args : list string)
  | EvGoRefresh (tid : nat)
  | EvGoHealthServer
  | EvPatch (namespace podName role : string) (ok : bool).

(** ** Refresh goroutines

    The closure started by [setRole] captures [ctx], [filePath] and
    [identity].  Its control points are: blocked in [select]; the
    [ticker.C] case taken; the branch of the tick chosen, with the file
    operation not yet issued; returned. *)
Inductive Phase :=
  | AtSelect
  | Ticked
  | WillWrite
  | WillTouch (now : Z)
  | Returned.

Record Task := mkTask {
  t_ctx : nat;
  t_filePath : string;
  t_identity : string;
  t_phase : Phase
}.

(** ** The world *)

Record World := mkWorld {
  (* package-level variables, main.go:20-26 *)
  statusDir : string;
  leaderFile : string;
  followerFile : string;
  currentRole : string;
  roleCancel : option nat;
  (* the file system under the status directory, and its clock *)
  files : gmap string File;
  clock : Z;
  (* environment: os.WriteFile fails; the pod patch fails *)
  writeFault : bool;
  patchFault : bool;
  (* contexts made by context.WithCancel (true: cancelled) and goroutines *)
  contexts : list bool;
  tasks : list Task;
  (* everything the program did, oldest first *)
  trace : list Event
}.

Definition set_paths (d l f : string) (w : World) : World :=
  mkWorld d l f (currentRole w) (roleCancel w) (files w) (clock w)
    (writeFault w) (patchFault w) (contexts w) (tasks w) (trace w).

Definition set_currentRole (r : string) (w : World) : World :=
  mkWorld (statusDir w) (leaderFile w) (followerFile w) r (roleCancel w)
    (files w) (clock w) (writeFault w) (patchFault w) (contexts w) (tasks w)
    (trace w).

Definition set_roleCancel (c : option nat) (w : World) : World :=
  mkWorld (statusDir w) (leaderFile w) (followerFile w) (currentRole w) c
    (files w) (clock w) (writeFault w) (patchFault w) (contexts w) (tasks w)
    (trace w).

Definition set_files (fs : gmap string File) (w : World) : World :=
  mkWorld (statusDir w) (leaderFile w) (followerFile w) (currentRole w)
    (roleCancel w) fs (clock w) (writeFault w) (patchFault w) (contexts w)
    (tasks w) (trace w).

Definition set_clock (t : Z) (w : World) : World :=
  mkWorld (statusDir w) (leaderFile w) (followerFile w) (currentRole w)
    (roleCancel w) (files w) t (writeFault w) (patchFault w) (contexts w)
    (tasks w) (trace w).

Definition set_writeFault (b : bool) (w : World) : World :=
  mkWorld (statusDir w) (leaderFile w) (followerFile w) (currentRole w)
    (roleCancel w) (files w) (clock w) b (patchFault w) (contexts w)
    (tasks w) (trace w).

Definition set_contexts (cs : list bool) (w : World) : World :=
  mkWorld (statusDir w) (leaderFile w) (followerFile w) (currentRole w)
    (roleCancel w) (files w) (clock w) (writeFault w) (patchFault w) cs
    (tasks w) (trace w).

Definition set_tasks (ts : list Task) (w : World) : World :=
  mkWorld (statusDir w) (leaderFile w) (followerFile w) (currentRole w)
    (roleCancel w) (files w) (clock w) (writeFault w) (patchFault w)
    (contexts w) ts (trace w).

Definition log (e : Event) (w : World) : World :=
  mkWorld (statusDir w) (leaderFile w) (followerFile w) (currentRole w)
    (roleCancel w) (files w) (clock w) (writeFault w) (patchFault w)
    (contexts w) (tasks w) (trace w ++ [e]).

(** ** Library calls the program makes *)

(** [os.Remove]: unlinks the entry; the only failure is a missing entry. *)
Definition os_Remove (name : string) (w : World) : World * option Errno :=
  match files w !! name with
  | Some _ => (log (EvRemove name true) (set_files (delete name (files w)) w), None)
  | None => (log (EvRemove name false) w, Some ENOENT)
  end.

(** [os.WriteFile name data 0644]: creates or truncates the file and writes
    all of [data]; the modification time becomes the current time.  Under
    [writeFault] the call fails at open and the directory is left as it
    was. *)
Definition os_WriteFile (who : Actor) (name data : string) (w : World)
  : World * option Errno :=
  if writeFault w then (log (EvWriteFile who name data false) w, Some EIO)
  else (log (EvWriteFile who name data true)
          (set_files (<[name := mkFile data (clock w)]> (files w)) w), None).

(** [os.Chtimes name now now]: sets the modification time of an existing
    file and leaves its bytes alone; fails on a missing file. *)
Definition os_Chtimes (who : Actor) (name : string) (mtime : Z) (w : World)
  : World * option Errno :=
  match files w !! name with
  | Some f => (log (EvChtimes who name mtime true)
                 (set_files (<[name := mkFile (content f) mtime]> (files w)) w), None)
  | None => (log (EvChtimes who name mtime false) w, Some ENOENT)
  end.

Definition fmt_Printf (format : string) (args : list string) (w : World) : World :=
  log (EvPrintf format args) w.

Definition Errno_Error (e : Errno) : string :=
  match e with
  | ENOENT => "no such file or directory"
  | EIO => "input/output error"
  end.

(** [context.WithCancel(context.Background())]: a fresh context, named by
    its index, which is also what the returned [CancelFunc] cancels. *)
Definition context_WithCancel (w : World) : World * nat :=
  (set_contexts (contexts w ++ [false]) w, length (contexts w)).

(** Calling a [CancelFunc]: marks the context done and returns at once. *)
Definition call_cancel (ctx : nat) (w : World) : World :=
  log (EvCancel ctx) (set_contexts (<[ctx := true]> (contexts w)) w).

(** [go func() { ... }()] in [setRole]: a new goroutine, blocked in its
    [select]. *)
Definition go_refresh (ctx : nat) (filePath identity : string) (w : World) : World :=
  log (EvGoRefresh (length (tasks w)))
    (set_tasks (tasks w ++ [mkTask ctx filePath identity AtSelect]) w).

(** ** [setRole] (main.go:120-159, part_000:140-188) *)

Definition setRole (role identity : string) (w : World) : World :=
  if decide (currentRole w = role) then w else
  let w := match roleCancel w with
           | Some cancel => call_cancel cancel w
           | None => w
           end in
  let w := (os_Remove (leaderFile w) w).1 in
  let w := (os_Remove (followerFile w) w).1 in
  let filePath := if decide (role = "leader") then leaderFile w else followerFile w in
  let '(w, err) := os_WriteFile Callback filePath identity w in
  let w := match err with
           | Some e => fmt_Printf "failed to write %s file: %v" [role; Errno_Error e] w
           | None => w
           end in
  let w := set_currentRole role w in
  let '(w, ctx) := context_WithCancel w in
  let w := set_roleCancel (Some ctx) w in
  go_refresh ctx filePath identity w.

(** ** The refresh goroutine (main.go:144-158, part_000:164-187)

    One function per control point, so that a scheduler can interleave the
    goroutine with the callbacks; [tick] below runs one whole
    [case <-ticker.C] body without interruption. *)

Definition set_phase (tid : nat) (p : Phase) (w : World) : World :=
  match tasks w !! tid with
  | Some t =>
      set_tasks (<[tid := mkTask (t_ctx t) (t_filePath t) (t_identity t) p]> (tasks w)) w
  | None => w
  end.

Definition ctx_done (ctx : nat) (w : World) : bool :=
  default false (contexts w !! ctx).

(** [select] takes [case <-ticker.C] (the ticker has fired). *)
Definition select_ticker (tid : nat) (w : World) : World :=
  match tasks w !! tid with
  | Some t =>
      match t_phase t with
      | AtSelect => set_phase tid Ticked w
      | _ => w
      end
  | None => w
  end.

(** [select] takes [case <-ctx.Done()] and the goroutine returns; possible
    only once the context is cancelled. *)
Definition select_done (tid : nat) (w : World) : World :=
  match tasks w !! tid with
  | Some t =>
      match t_phase t with
      | AtSelect => if ctx_done (t_ctx t) w then set_phase tid Returned w else w
      | _ => w
      end
  | None => w
  end.

(** [now := time.Now()] and, in part_000, the test [currentRole == "leader"]
    on the package-level variable. *)
Definition tick_decide (ed : Edition) (tid : nat) (w : World) : World :=
  match tasks w !! tid with
  | Some t =>
      match t_phase t with
      | Ticked =>
          let now := clock w in
          match ed with
          | MainGo => set_phase tid (WillTouch now) w
          | PodLabel =>
              if decide (currentRole w = "leader")
              then set_phase tid WillWrite w
              else set_phase tid (WillTouch now) w
          end
      | _ => w
      end
  | None => w
  end.

(** The file operation of the chosen branch, its error printed, and back to
    [select]. *)
Definition tick_perform (tid : nat) (w : World) : World :=
  match tasks w !! tid with
  | Some t =>
      match t_phase t with
      | WillWrite =>
          let '(w, err) := os_WriteFile (Refresh tid) (t_filePath t) (t_identity t) w in
          let w := match err with
                   | Some e => fmt_Printf "failed to refresh leader file: %v" [Errno_Error e] w
                   | None => w
                   end in
          set_phase tid AtSelect w
      | WillTouch now =>
          let '(w, err) := os_Chtimes (Refresh tid) (t_filePath t) now w in
          let w := match err with
                   | Some e => fmt_Printf "failed to touch %s: %v" [t_filePath t; Errno_Error e] w
                   | None => w
                   end in
          set_phase tid AtSelect w
      | _ => w
      end
  | None => w
  end.

(** One tick of goroutine [tid], run to completion. *)
Definition tick (ed : Edition) (tid : nat) (w : World) : World :=
  tick_perform tid (tick_decide ed tid (select_ticker tid w)).

(** ** Start-up: [initStatus] and [main] *)

(** What the host answers to the calls [main] makes before the election. *)
Record Host := mkHost {
  environ : gmap string string;
  MkdirAll_err : option string;
  InClusterConfig_err : option string;
  BuildConfigFromFlags_err : option string;
  NewForConfig_err : option string;
  Hostname : string + string   (* inl name | inr error *)
}.

Definition os_Getenv (h : Host) (key : string) : string :=
  default "" (environ h !! key).

Definition os_LookupEnv (h : Host) (key : string) : string * bool :=
  match environ h !! key with
  | Some v => (v, true)
  | None => ("", false)
  end.

(** [filepath.Join dir name] for a non-empty [dir]; the cleaning of [dir]
    is left out, the two markers differ in their last element. *)
Definition filepath_Join (dir name : string) : string :=
  dir +:+ "/" +:+ name.

Inductive PanicReason :=
  | PanicStatusDir (dir err : string)
  | PanicNoKubeconfig
  | PanicErr (err : string)
  | PanicLeaseName
  | PanicNamespace
  | PanicPodName.

Definition initStatus (h : Host) (w : World) : World + PanicReason :=
  let dir := os_Getenv h "STATUS_DIR" in
  let dir := if decide (dir = "") then defaultStatusDir else dir in
  match MkdirAll_err h with
  | Some err => inr (PanicStatusDir dir err)
  | None => inl (set_paths dir (filepath_Join dir "leader") (filepath_Join dir "follower") w)
  end.

Record LeaseLock := mkLeaseLock {
  LeaseMeta_Name : string;
  LeaseMeta_Namespace : string;
  LockConfig_Identity : string
}.

Record LeaderElectionConfig := mkConfig {
  Lock : LeaseLock;
  LeaseDuration : Z;
  RenewDeadline : Z;
  RetryPeriod : Z
}.

(** What the callbacks close over: [id], [namespace], and in part_000
    [labelPodRole] and [podName]. *)
Record Elector := mkElector {
  config : LeaderElectionConfig;
  id : string;
  namespace : string;
  labelPodRole : bool;
  podName : string
}.

(** How [main] ends: in a panic, or inside [leaderelection.RunOrDie]. *)
Inductive Startup :=
  | Panic (reason : PanicReason)
  | RunOrDie (el : Elector) (w : World).

(** part_000:86-94; main.go has no labelling. *)
Definition readPodLabelling (ed : Edition) (h : Host) : (bool * string) + PanicReason :=
  match ed with
  | MainGo => inl (false, "")
  | PodLabel =>
      if decide (os_Getenv h "LABEL_POD_ROLE" = "true") then
        let '(podName, exists_) := os_LookupEnv h "POD_NAME" in
        if exists_ then inl (true, podName) else inr PanicPodName
      else inl (false, "")
  end.

Definition main (ed : Edition) (h : Host) (w : World) : Startup :=
  match initStatus h w with
  | inr p => Panic p
  | inl w =>
  let w := log EvGoHealthServer w in
  match (match InClusterConfig_err h with
         | None => None
         | Some _ =>
             let '(_, exists_) := os_LookupEnv h "KUBECONFIG" in
             if negb exists_ then Some PanicNoKubeconfig
             else PanicErr <$> BuildConfigFromFlags_err h
         end) with
  | Some p => Panic p
  | None =>
  match NewForConfig_err h with
  | Some err => Panic (PanicErr err)
  | None =>
  match Hostname h with
  | inr err => Panic (PanicErr err)
  | inl id =>
  let '(leaseName, exists_) := os_LookupEnv h "LEASE_NAME" in
  if negb exists_ then Panic PanicLeaseName else
  let '(namespace, exists_) := os_LookupEnv h "NAMESPACE" in
  if negb exists_ then Panic PanicNamespace else
  match readPodLabelling ed h with
  | inr p => Panic p
  | inl (labelPodRole, podName) =>
      RunOrDie
        (mkElector
           (mkConfig (mkLeaseLock leaseName namespace id)
              (15 * time.Second) (10 * time.Second) (2 * time.Second))
           id namespace labelPodRole podName)
        w
  end end end end end.

(** ** The callbacks handed to the election (main.go:103-116, part_000:114-136) *)

(** [patchPodRole]: one PATCH of the pod's labels; a failure is printed and
    returned. *)
Definition patchPodRole (namespace podName role : string) (w : World) : World * bool :=
  if patchFault w
  then (fmt_Printf "failed to patch pod role: %v" ["patch failed"]
          (log (EvPatch namespace podName role false) w), true)
  else (log (EvPatch namespace podName role true) w, false).

Definition labelStep (el : Elector) (role : string) (w : World) : World :=
  if labelPodRole el then (patchPodRole (namespace el) (podName el) role w).1 else w.

(** The wait [<-ctx.Done()] that ends [OnStartedLeading] changes no state. *)
Definition OnStartedLeading (el : Elector) (w : World) : World :=
  labelStep el "leader" (setRole "leader" (id el) w).

Definition OnStoppedLeading (el : Elector) (w : World) : World :=
  labelStep el "follower" (setRole "follower" (id el) w).

Definition OnNewLeader (el : Elector) (identity : string) (w : World) : World :=
  if decide (identity ≠ id el)
  then labelStep el "follower" (setRole "follower" (id el) w)
  else w.

(** The world before [main] runs: zero values everywhere. *)
Definition world0 (fs : gmap string File) (now : Z) (wf pf : bool) : World :=
  mkWorld "" "" "" "" None fs now wf pf [] [] [].

(** * Vocabulary of the properties *)

(** ** What a transition computes *)

(** Is there an entry of that name? *)
Definition present (name : string) (fs : gmap string File) : bool :=
  bool_decide (is_Some (fs !! name)).

(** The two markers that [initStatus] names are different paths. *)
Definition markers_distinct (w : World) : Prop := leaderFile w ≠ followerFile w.

(** The contexts, and the trace, after the cancel step of [setRole]. *)
Definition cancelled_contexts (w : World) : list bool :=
  match roleCancel w with
  | Some c => <[c := true]> (contexts w)
  | None => contexts w
  end.

Definition cancel_events (w : World) : list Event :=
  match roleCancel w with
  | Some c => [EvCancel c]
  | None => []
  end.

(** The marker that [setRole] picks for a role (its [filePath]). *)
Definition markerOf (role : string) (w : World) : string :=
  if decide (role = "leader") then leaderFile w else followerFile w.

(** The directory once both markers are removed. *)
Definition cleared (w : World) : gmap string File :=
  delete (followerFile w) (delete (leaderFile w) (files w)).

(** The trace of the write step of [setRole], with its error report. *)
Definition write_events (role identity : string) (w : World) : list Event :=
  if writeFault w
  then [EvWriteFile Callback (markerOf role w) identity false;
        EvPrintf "failed to write %s file: %v" [role; Errno_Error EIO]]
  else [EvWriteFile Callback (markerOf role w) identity true].

(** ** A running example: the pod "pod-a"

    LEASE_NAME and NAMESPACE set as in the README, every call of the host
    succeeding. *)
Definition host_a : Host :=
  mkHost (<["NAMESPACE" := "default"]> {["LEASE_NAME" := "myapp-lock"]})
    None None None None (inl "pod-a").

(** The election [main] starts on that host. *)
Definition elector_a : Elector :=
  mkElector
    (mkConfig (mkLeaseLock "myapp-lock" "default" "pod-a")
       (15 * time.Second) (10 * time.Second) (2 * time.Second))
    "pod-a" "default" false "".

(** The world in which the election starts on an empty status directory. *)
Definition boot (wf : bool) : World :=
  log EvGoHealthServer
    (set_paths "/tmp/leader_status" "/tmp/leader_status/leader"
       "/tmp/leader_status/follower" (world0 ∅ 0 wf false)).

(** The same host with labelling asked for and POD_NAME forgotten. *)
Definition host_no_pod : Host :=
  mkHost (<["LABEL_POD_ROLE" := "true"]> (environ host_a)) None None None None
    (inl "pod-a").

(** ** Ticks *)

(** The branch a tick takes: part_000 writes when the package-level
    [currentRole] reads "leader"; everything else touches. *)
Definition tick_writes (ed : Edition) (w : World) : bool :=
  match ed with
  | MainGo => false
  | PodLabel => bool_decide (currentRole w = "leader")
  end.

(** A file after [os.Chtimes]: same bytes, new modification time. *)
Definition touched (now : Z) (f : File) : File := mkFile (content f) now.

(** A goroutine that serves the role now held: blocked in [select], bound
    to the marker of [currentRole], on the context [roleCancel] cancels. *)
Definition refreshing (w : World) (tid : nat) (t : Task) : Prop :=
  tasks w !! tid = Some t
  ∧ t_phase t = AtSelect
  ∧ t_filePath t = markerOf (currentRole w) w
  ∧ roleCancel w = Some (t_ctx t).

(** What no step of a refresh goroutine changes. *)
Definition same_globals (w w' : World) : Prop :=
  leaderFile w' = leaderFile w ∧ followerFile w' = followerFile w
  ∧ currentRole w' = currentRole w ∧ roleCancel w' = roleCancel w
  ∧ contexts w' = contexts w.

(** ** Interleavings

    The callbacks and the refresh goroutines run on different goroutines.
    A schedule lists what happens next: a callback of the election (run to
    completion), a control point of a refresh goroutine, or time passing. *)
Inductive Action :=
  | CallOnStartedLeading
  | CallOnStoppedLeading
  | CallOnNewLeader (identity : string)
  | TickerFires (tid : nat)
  | CtxDone (tid : nat)
  | Decide (tid : nat)
  | Perform (tid : nat)
  | TimePasses (now : Z).

Definition exec (ed : Edition) (el : Elector) (w : World) (a : Action) : World :=
  match a with
  | CallOnStartedLeading => OnStartedLeading el w
  | CallOnStoppedLeading => OnStoppedLeading el w
  | CallOnNewLeader identity => OnNewLeader el identity w
  | TickerFires tid => select_ticker tid w
  | CtxDone tid => select_done tid w
  | Decide tid => tick_decide ed tid w
  | Perform tid => tick_perform tid w
  | TimePasses now => set_clock now w
  end.

Definition run (ed : Edition) (el : Elector) (acts : list Action) (w : World) : World :=
  foldl (exec ed el) w acts.

(** A file operation that goroutine [tid] issued and that took effect. *)
Definition issued_by (tid : nat) (e : Event) : bool :=
  match e with
  | EvWriteFile (Refresh t) _ _ true => bool_decide (t = tid)
  | EvChtimes (Refresh t) _ _ true => bool_decide (t = tid)
  | _ => false
  end.

(** A removal or write of a marker by [setRole]. *)
Definition marker_mutation (e : Event) : bool :=
  match e with
  | EvRemove _ _ => true
  | EvWriteFile Callback _ _ _ => true
  | _ => false
  end.

(** The hazard: the context of goroutine [tid] was cancelled, [setRole]
    went on to mutate a marker, and later still the goroutine's own file
    operation took effect. *)
Definition late_write (w : World) (tid : nat) : Prop :=
  ∃ t i j k em ew,
    tasks w !! tid = Some t
    ∧ trace w !! i = Some (EvCancel (t_ctx t))
    ∧ trace w !! j = Some em ∧ marker_mutation em = true
    ∧ trace w !! k = Some ew ∧ issued_by tid ew = true
    ∧ i < j ∧ j < k.

(** Cancel-and-join, as C3 has it: under no schedule does a cancelled
    goroutine write after the marker mutation of the transition began. *)
Definition cancel_and_join (ed : Edition) (el : Elector) (w0 : World) : Prop :=
  ∀ acts tid, ¬ late_write (run ed el acts w0) tid.

(** Stepping down while a tick of the leader's goroutine is in flight. *)
Definition stepping_down_mid_tick : list Action :=
  [CallOnStartedLeading; TickerFires 0; Decide 0; CallOnStoppedLeading; Perform 0].

(** ** Reachable worlds

    What can happen once [main] has handed the callbacks to the election:
    any action of a schedule, and the environment turning a fault on or
    off.  Callbacks run one at a time and to completion, as in [exec]. *)

Definition set_patchFault (b : bool) (w : World) : World :=
  mkWorld (statusDir w) (leaderFile w) (followerFile w) (currentRole w)
    (roleCancel w) (files w) (clock w) (writeFault w) b (contexts w)
    (tasks w) (trace w).

Inductive step (ed : Edition) (el : Elector) : World → World → Prop :=
  | step_action (a : Action) (w : World) : step ed el w (exec ed el w a)
  | step_writeFault (b : bool) (w : World) : step ed el w (set_writeFault b w)
  | step_patchFault (b : bool) (w : World) : step ed el w (set_patchFault b w).

(** [main] reached [leaderelection.RunOrDie] with elector [el] in world [w]. *)
Definition started (ed : Edition) (el : Elector) (w : World) : Prop :=
  ∃ h fs now wf pf, main ed h (world0 fs now wf pf) = RunOrDie el w.

Definition reachable_from (ed : Edition) (el : Elector) (w0 w : World) : Prop :=
  started ed el w0 ∧ rtc (step ed el) w0 w.

Definition reachable (ed : Edition) (el : Elector) (w : World) : Prop :=
  ∃ w0, reachable_from ed el w0 w.

(** Same package-level variables, contexts and goroutines. *)
Definition same_control (w w' : World) : Prop :=
  same_globals w w' ∧ tasks w' = tasks w.

(** How package-level variables, contexts and goroutines hang together. *)
Record coherent (el : Elector) (w : World) : Prop := mkCoherent {
  coh_paths : leaderFile w ≠ followerFile w;
  coh_len : length (contexts w) = length (tasks w);
  coh_task : ∀ i t, tasks w !! i = Some t →
      t_ctx t = i ∧ t_identity t = id el
      ∧ (t_filePath t = leaderFile w ∨ t_filePath t = followerFile w);
  coh_cancel : match roleCancel w with
               | None => tasks w = []
               | Some c => S c = length (tasks w)
               end;
  coh_superseded : ∀ i, S i < length (contexts w) → contexts w !! i = Some true;
  coh_role : (currentRole w = "" ∧ tasks w = [])
             ∨ ((currentRole w = "leader" ∨ currentRole w = "follower")
                ∧ tasks w ≠ []);
  coh_current : ∀ c t, roleCancel w = Some c → tasks w !! c = Some t →
      t_filePath t = markerOf (currentRole w) w
      ∧ t_phase t ≠ Returned
      ∧ contexts w !! c = Some false;
  coh_returned : ∀ i t, tasks w !! i = Some t → t_phase t = Returned →
      contexts w !! i = Some true
}.

(** Is that event a label patch? *)
Definition is_patch (e : Event) : bool :=
  match e with
  | EvPatch _ _ _ _ => true
  | _ => false
  end.

(** The markers that exist. *)
Definition markers_present (w : World) : list string :=
  filter (λ p, present p (files w) = true) [leaderFile w; followerFile w].

(** When [main] gets as far as the election (see [main_starts_iff]). *)
Definition host_ready (ed : Edition) (h : Host) : Prop :=
  MkdirAll_err h = None
  ∧ (InClusterConfig_err h = None
     ∨ (is_Some (environ h !! "KUBECONFIG") ∧ BuildConfigFromFlags_err h = None))
  ∧ NewForConfig_err h = None
  ∧ is_Some (environ h !! "LEASE_NAME")
  ∧ is_Some (environ h !! "NAMESPACE")
  ∧ (ed = PodLabel → environ h !! "LABEL_POD_ROLE" = Some "true" →
     is_Some (environ h !! "POD_NAME")).

(** The elector [main] builds on a ready host whose name is [name]. *)
Definition elector_of (ed : Edition) (h : Host) (name : string) : Elector :=
  let labelling :=
    match ed with
    | MainGo => false
    | PodLabel => bool_decide (environ h !! "LABEL_POD_ROLE" = Some "true")
    end in
  mkElector
    (mkConfig
       (mkLeaseLock (default "" (environ h !! "LEASE_NAME"))
          (default "" (environ h !! "NAMESPACE")) name)
       (15 * time.Second) (10 * time.Second) (2 * time.Second))
    name (default "" (environ h !! "NAMESPACE"))
    labelling
    (if labelling then default "" (environ h !! "POD_NAME") else "").

(** The status directory [initStatus] settles on. *)
Definition chosen_statusDir (h : Host) : string :=
  match environ h !! "STATUS_DIR" with
  | Some dir => if decide (dir = "") then defaultStatusDir else dir
  | None => defaultStatusDir
  end.


(** A write, touch or patch that failed. *)
Definition failed (e : Event) : bool :=
  match e with
  | EvWriteFile _ _ _ ok => negb ok
  | EvChtimes _ _ _ ok => negb ok
  | EvPatch _ _ _ ok => negb ok
  | _ => false
  end.

Definition is_print (e : Event) : bool :=
  match e with
  | EvPrintf _ _ => true
  | _ => false
  end.

(** Every failed write, touch or patch of the trace is followed at once by
    a print. *)
Fixpoint reported (tr : list Event) : bool :=
  match tr with
  | [] => true
  | e :: rest =>
      (if failed e
       then match rest with
            | e' :: _ => is_print e'
            | [] => false
            end
       else true) && reported rest
  end.

(** Everything [main] needs before it looks at the election's variables. *)
Definition infra_ready (h : Host) : Prop :=
  MkdirAll_err h = None
  ∧ (InClusterConfig_err h = None
     ∨ (is_Some (environ h !! "KUBECONFIG") ∧ BuildConfigFromFlags_err h = None))
  ∧ NewForConfig_err h = None
  ∧ ∃ name, Hostname h = inl name.

(** The pod "pod-a" again, with labelling asked for and POD_NAME given. *)
Definition host_lab : Host :=
  mkHost (<["POD_NAME" := "pod-a"]> (<["LABEL_POD_ROLE" := "true"]> (environ host_a)))
    None None None None (inl "pod-a").

Definition elector_lab : Elector :=
  mkElector (config elector_a) "pod-a" "default" true "pod-a".

(** ** [setRole], statement by statement

    The same function cut at every statement that reads or writes shared
    state, so that steps of the refresh goroutines can fall between two
    statements of a transition.  [AtSetRole] and the stages after it carry
    the local [filePath]; [AtAssign] and [AtGo] carry the new context. *)
Inductive Stage :=
  | AtGuard
  | AtCancel
  | AtRemoveLeader
  | AtRemoveFollower
  | AtWrite
  | AtSetRole (filePath : string)
  | AtWithCancel (filePath : string)
  | AtAssign (filePath : string) (ctx : nat)
  | AtGo (filePath : string) (ctx : nat).

Record Call := mkCall { c_role : string; c_identity : string; c_stage : Stage }.

(** One statement of [setRole]; [None] when the call returns. *)
Definition setRole_step (c : Call) (w : World) : World * option Call :=
  let next := λ s, Some (mkCall (c_role c) (c_identity c) s) in
  match c_stage c with
  | AtGuard =>
      if decide (currentRole w = c_role c) then (w, None) else (w, next AtCancel)
  | AtCancel =>
      (match roleCancel w with
       | Some cancel => call_cancel cancel w
       | None => w
       end, next AtRemoveLeader)
  | AtRemoveLeader => ((os_Remove (leaderFile w) w).1, next AtRemoveFollower)
  | AtRemoveFollower => ((os_Remove (followerFile w) w).1, next AtWrite)
  | AtWrite =>
      let filePath :=
        if decide (c_role c = "leader") then leaderFile w else followerFile w in
      let '(w, err) := os_WriteFile Callback filePath (c_identity c) w in
      let w := match err with
               | Some e =>
                   fmt_Printf "failed to write %s file: %v" [c_role c; Errno_Error e] w
               | None => w
               end in
      (w, next (AtSetRole filePath))
  | AtSetRole filePath => (set_currentRole (c_role c) w, next (AtWithCancel filePath))
  | AtWithCancel filePath =>
      let '(w, ctx) := context_WithCancel w in (w, next (AtAssign filePath ctx))
  | AtAssign filePath ctx => (set_roleCancel (Some ctx) w, next (AtGo filePath ctx))
  | AtGo filePath ctx => (go_refresh ctx filePath (c_identity c) w, None)
  end.

(** The call run for at most [fuel] statements. *)
Fixpoint setRole_run (fuel : nat) (c : Call) (w : World) : World * option Call :=
  match fuel with
  | 0 => (w, Some c)
  | S fuel =>
      match setRole_step c w with
      | (w, Some c) => setRole_run fuel c w
      | (w, None) => (w, None)
      end
  end.

(** The goroutine that runs the callbacks: idle, inside [setRole], or back
    from it with the label step still to do. *)
Inductive Thread :=
  | Idle
  | InSetRole (c : Call)
  | ToLabel (role : string).

(** The call of [setRole] a callback makes, if any. *)
Definition callback_call (el : Elector) (a : Action) : option Call :=
  match a with
  | CallOnStartedLeading => Some (mkCall "leader" (id el) AtGuard)
  | CallOnStoppedLeading => Some (mkCall "follower" (id el) AtGuard)
  | CallOnNewLeader identity =>
      if decide (identity ≠ id el) then Some (mkCall "follower" (id el) AtGuard)
      else None
  | _ => None
  end.

(** Steps at statement grain: one callback at a time, its statements
    interleaved at will with steps of the refresh goroutines, the clock and
    the faults. *)
Inductive fstep (ed : Edition) (el : Elector) : World * Thread → World * Thread → Prop :=
  | fstep_begin (a : Action) (c : Call) (w : World) :
      callback_call el a = Some c →
      fstep ed el (w, Idle) (w, InSetRole c)
  | fstep_statement (c : Call) (w : World) :
      fstep ed el (w, InSetRole c)
        (match setRole_step c w with
         | (w', Some c') => (w', InSetRole c')
         | (w', None) => (w', ToLabel (c_role c))
         end)
  | fstep_label (role : string) (w : World) :
      fstep ed el (w, ToLabel role) (labelStep el role w, Idle)
  | fstep_goroutine (a : Action) (tid : nat) (w : World) (th : Thread) :
      a ∈ [TickerFires tid; CtxDone tid; Decide tid; Perform tid] →
      fstep ed el (w, th) (exec ed el w a, th)
  | fstep_clock (now : Z) (w : World) (th : Thread) :
      fstep ed el (w, th) (set_clock now w, th)
  | fstep_writeFault (b : bool) (w : World) (th : Thread) :
      fstep ed el (w, th) (set_writeFault b w, th)
  | fstep_patchFault (b : bool) (w : World) (th : Thread) :
      fstep ed el (w, th) (set_patchFault b w, th).

(** What the statements of a transition have established about the
    markers so far. *)
Definition stage_cleared (th : Thread) (w : World) : Prop :=
  match th with
  | InSetRole c =>
      match c_stage c with
      | AtRemoveFollower => files w !! leaderFile w = None
      | AtWrite =>
          files w !! leaderFile w = None ∧ files w !! followerFile w = None
      | _ => True
      end
  | _ => True
  end.

(** At most one of the two markers exists. *)
Definition at_most_one_marker (w : World) : Prop :=
  files w !! leaderFile w = None ∨ files w !! followerFile w = None.

(** * Properties *)

(** Unfolds the state-passing plumbing and nothing of the map library. *)
Ltac world_simpl :=
  cbv beta iota zeta delta
    [statusDir leaderFile followerFile currentRole roleCancel files clock
     writeFault patchFault contexts tasks trace
     set_paths set_currentRole set_roleCancel set_files set_clock
     set_writeFault set_contexts set_tasks log
     fmt_Printf context_WithCancel call_cancel go_refresh fst snd].

(** ** What the library calls change *)

Lemma os_Remove_world name w :
  (os_Remove name w).1
  = log (EvRemove name (present name (files w)))
      (set_files (delete name (files w)) w).
Proof.
  unfold os_Remove, present. destruct (files w !! name) as [f|] eqn:E; simpl.
  - reflexivity.
  - rewrite (delete_id _ _ E). destruct w; reflexivity.
Qed.

Lemma filepath_Join_inj dir a b : filepath_Join dir a = filepath_Join dir b → a = b.
Proof.
  unfold filepath_Join. induction dir as [|c dir IH]; simpl.
  - intros H. by injection H.
  - intros H. injection H. exact IH.
Qed.

Lemma initStatus_markers_distinct h w w' :
  initStatus h w = inl w' → markers_distinct w'.
Proof.
  unfold initStatus. destruct (MkdirAll_err h); [discriminate|].
  intros [= <-]. unfold markers_distinct; simpl.
  intros H. apply filepath_Join_inj in H. discriminate.
Qed.

Lemma length_cancelled_contexts w :
  length (cancelled_contexts w) = length (contexts w).
Proof. unfold cancelled_contexts. destruct (roleCancel w); [apply length_insert | done]. Qed.

(** A call that passes the guard, field by field. *)
Lemma setRole_transition role identity w :
  currentRole w ≠ role →
  setRole role identity w =
  mkWorld (statusDir w) (leaderFile w) (followerFile w) role
    (Some (length (contexts w)))
    (if writeFault w then cleared w
     else <[markerOf role w := mkFile identity (clock w)]> (cleared w))
    (clock w) (writeFault w) (patchFault w)
    (cancelled_contexts w ++ [false])
    (tasks w ++ [mkTask (length (contexts w)) (markerOf role w) identity AtSelect])
    (trace w ++ cancel_events w
       ++ [EvRemove (leaderFile w) (present (leaderFile w) (files w));
           EvRemove (followerFile w)
             (present (followerFile w) (delete (leaderFile w) (files w)))]
       ++ write_events role identity w
       ++ [EvGoRefresh (length (tasks w))]).
Proof.
  intros Hne. unfold setRole. rewrite decide_False by done.
  rewrite !os_Remove_world. unfold os_WriteFile, write_events, markerOf, cleared.
  rewrite <- (length_cancelled_contexts w).
  unfold cancelled_contexts, cancel_events, call_cancel.
  destruct w as [sd lf ff cr rc fs ck wf pf cs ts tr].
  destruct rc as [c|], wf; world_simpl; rewrite <- ?app_assoc; reflexivity.
Qed.

(** The guard: nothing at all happens when the role is already held. *)
Lemma setRole_same role identity w :
  currentRole w = role → setRole role identity w = w.
Proof. intros H. unfold setRole. by rewrite decide_True. Qed.

(** ** The running example *)

Example main_host_a ed : main ed host_a (world0 ∅ 0 false false) = RunOrDie elector_a (boot false).
Proof. destruct ed; vm_compute; reflexivity. Qed.

Lemma boot_markers_distinct wf : markers_distinct (boot wf).
Proof. unfold markers_distinct. destruct wf; vm_compute; discriminate. Qed.

(** Leading: the leader marker holds "pod-a" and there is no follower
    marker. *)
Example leading_scenario :
  let w := run PodLabel elector_a [CallOnStartedLeading; TimePasses 2; TickerFires 0;
                                   Decide 0; Perform 0] (boot false) in
  files w = {["/tmp/leader_status/leader" := mkFile "pod-a" 2]}
  ∧ currentRole w = "leader".
Proof. vm_compute. split; reflexivity. Qed.

(** Stepping down with no tick in flight: the leader marker goes, the
    follower marker holds "pod-a", a tick moves its time and not its
    content, and the cancelled goroutine returns. *)
Example stepping_down_scenario ed :
  let w := run ed elector_a [CallOnStartedLeading; CallOnStoppedLeading; CtxDone 0;
                             TimePasses 7; TickerFires 1; Decide 1; Perform 1]
             (boot false) in
  files w = {["/tmp/leader_status/follower" := mkFile "pod-a" 7]}
  ∧ t_phase <$> tasks w = [Returned; AtSelect].
Proof. destruct ed; vm_compute; split; reflexivity. Qed.

(** ** The markers after a transition *)

Lemma cleared_leader w : cleared w !! leaderFile w = None.
Proof.
  unfold cleared. destruct (decide (followerFile w = leaderFile w)) as [->|Hne].
  - apply lookup_delete_eq.
  - rewrite lookup_delete_ne by done. apply lookup_delete_eq.
Qed.

Lemma cleared_follower w : cleared w !! followerFile w = None.
Proof. unfold cleared. apply lookup_delete_eq. Qed.

Lemma files_setRole role identity w :
  currentRole w ≠ role →
  writeFault w = false →
  files (setRole role identity w)
  = <[markerOf role w := mkFile identity (clock w)]> (cleared w).
Proof. intros Hne Hwf. rewrite setRole_transition by done. simpl. by rewrite Hwf. Qed.

Lemma leaderFile_setRole role identity w :
  leaderFile (setRole role identity w) = leaderFile w.
Proof.
  destruct (decide (currentRole w = role)) as [E|E].
  - by rewrite setRole_same.
  - by rewrite setRole_transition.
Qed.

Lemma followerFile_setRole role identity w :
  followerFile (setRole role identity w) = followerFile w.
Proof.
  destruct (decide (currentRole w = role)) as [E|E].
  - by rewrite setRole_same.
  - by rewrite setRole_transition.
Qed.

(** C1.  After a call of [setRole] that passes the guard, with the role
    "leader" or "follower" and the marker write succeeding, exactly one of
    the two markers exists: the one of the new role, holding the identity
    just passed; the other path is absent. *)
Theorem setRole_exactly_one_marker (w : World) (role identity : string) :
  markers_distinct w →
  role = "leader" ∨ role = "follower" →
  currentRole w ≠ role →
  writeFault w = false →
  let w' := setRole role identity w in
  (role = "leader" →
     files w' !! leaderFile w' = Some (mkFile identity (clock w))
     ∧ files w' !! followerFile w' = None)
  ∧ (role = "follower" →
     files w' !! followerFile w' = Some (mkFile identity (clock w))
     ∧ files w' !! leaderFile w' = None).
Proof.
  intros Hd _ Hne Hwf w'. subst w'.
  rewrite leaderFile_setRole, followerFile_setRole, files_setRole by done.
  unfold markers_distinct in Hd. unfold markerOf. split; intros ->.
  - rewrite decide_True by done. split.
    + apply lookup_insert_eq.
    + rewrite lookup_insert_ne by done. apply cleared_follower.
  - rewrite decide_False by discriminate. split.
    + apply lookup_insert_eq.
    + rewrite lookup_insert_ne by done. apply cleared_leader.
Qed.

Lemma setRole_exactly_one_marker_witness :
  let w' := setRole "follower" "pod-a" (setRole "leader" "pod-a" (boot false)) in
  ("follower" = "leader" →
     files w' !! leaderFile w' = Some (mkFile "pod-a" 0)
     ∧ files w' !! followerFile w' = None)
  ∧ ("follower" = "follower" →
     files w' !! followerFile w' = Some (mkFile "pod-a" 0)
     ∧ files w' !! leaderFile w' = None).
Proof.
  apply (setRole_exactly_one_marker (setRole "leader" "pod-a" (boot false))
           "follower" "pod-a").
  - unfold markers_distinct. vm_compute. discriminate.
  - right. reflexivity.
  - vm_compute. discriminate.
  - vm_compute. reflexivity.
Defined.

(** C2.  A call of [setRole] with the role already held returns the world
    it was given: no marker is removed or written, nothing is logged,
    [currentRole] and [roleCancel] stay, no context is cancelled and no
    goroutine is started. *)
Theorem setRole_same_role_no_effect (w : World) (role identity : string) :
  currentRole w = role →
  let w' := setRole role identity w in
  w' = w
  ∧ files w' = files w
  ∧ trace w' = trace w
  ∧ currentRole w' = currentRole w
  ∧ roleCancel w' = roleCancel w
  ∧ contexts w' = contexts w
  ∧ tasks w' = tasks w.
Proof.
  intros H w'. subst w'. rewrite setRole_same by done. repeat split.
Qed.

Lemma setRole_same_role_no_effect_witness :
  let w := setRole "leader" "pod-a" (boot false) in
  let w' := setRole "leader" "pod-b" w in
  w' = w
  ∧ files w' = files w
  ∧ trace w' = trace w
  ∧ currentRole w' = currentRole w
  ∧ roleCancel w' = roleCancel w
  ∧ contexts w' = contexts w
  ∧ tasks w' = tasks w.
Proof.
  apply (setRole_same_role_no_effect (setRole "leader" "pod-a" (boot false))
           "leader" "pod-b").
  vm_compute. reflexivity.
Defined.

(** C6.  When the marker write of a transition fails, the failure is
    printed and nothing more: [currentRole] becomes the new role, and a new
    refresh goroutine is started on a fresh, uncancelled context that
    [roleCancel] now cancels. *)
Theorem setRole_write_failure_not_fatal (w : World) (role identity : string) :
  currentRole w ≠ role →
  writeFault w = true →
  let w' := setRole role identity w in
  EvPrintf "failed to write %s file: %v" [role; Errno_Error EIO] ∈ trace w'
  ∧ currentRole w' = role
  ∧ roleCancel w' = Some (length (contexts w))
  ∧ contexts w' !! length (contexts w) = Some false
  ∧ tasks w'
    = tasks w ++ [mkTask (length (contexts w)) (markerOf role w) identity AtSelect].
Proof.
  intros Hne Hwf w'. subst w'. rewrite setRole_transition by done. simpl.
  repeat split.
  - unfold write_events. rewrite Hwf. set_solver.
  - rewrite <- length_cancelled_contexts. apply list_lookup_middle. done.
Qed.

Lemma setRole_write_failure_not_fatal_witness :
  let w' := setRole "leader" "pod-a" (boot true) in
  EvPrintf "failed to write %s file: %v" ["leader"; Errno_Error EIO] ∈ trace w'
  ∧ currentRole w' = "leader"
  ∧ roleCancel w' = Some (length (contexts (boot true)))
  ∧ contexts w' !! length (contexts (boot true)) = Some false
  ∧ tasks w'
    = tasks (boot true)
        ++ [mkTask (length (contexts (boot true))) (markerOf "leader" (boot true))
              "pod-a" AtSelect].
Proof.
  apply (setRole_write_failure_not_fatal (boot true) "leader" "pod-a").
  - vm_compute. discriminate.
  - reflexivity.
Defined.

(** ** The first transition *)

(** [main] reaches the election only in the world [initStatus] made, with
    the health server started and nothing else touched. *)
Lemma main_RunOrDie_world ed h w0 el w :
  main ed h w0 = RunOrDie el w →
  ∃ dir, w = log EvGoHealthServer
               (set_paths dir (filepath_Join dir "leader")
                  (filepath_Join dir "follower") w0).
Proof.
  unfold main. destruct (initStatus h w0) as [w1|p] eqn:Hi; [|discriminate].
  unfold initStatus in Hi. destruct (MkdirAll_err h); [discriminate|].
  injection Hi as <-. intros H.
  repeat (case_match; try discriminate).
  all: injection H as _ <-; eexists; reflexivity.
Qed.

(** C9.  When the election starts, [currentRole] is the empty string and
    [roleCancel] is nil.  So the first call of [setRole] with "leader" or
    "follower" passes the guard and takes effect, and its cancel step is
    skipped: no cancel function is called, and the goroutine it starts is
    the first one. *)
Theorem first_setRole_effective
    (ed : Edition) (h : Host) (fs : gmap string File) (now : Z) (wf pf : bool)
    (el : Elector) (w : World) (role identity : string) :
  main ed h (world0 fs now wf pf) = RunOrDie el w →
  role = "leader" ∨ role = "follower" →
  let w' := setRole role identity w in
  currentRole w = "" ∧ roleCancel w = None
  ∧ currentRole w ≠ role
  ∧ currentRole w' = role
  ∧ (∀ c, EvCancel c ∉ trace w')
  ∧ roleCancel w' = Some 0
  ∧ contexts w' = [false]
  ∧ tasks w' = [mkTask 0 (markerOf role w) identity AtSelect].
Proof.
  intros Hmain Hrole w'. subst w'.
  destruct (main_RunOrDie_world _ _ _ _ _ Hmain) as [dir ->].
  assert (Hne : "" ≠ role) by (destruct Hrole as [-> | ->]; discriminate).
  split; [reflexivity|]. split; [reflexivity|]. split; [exact Hne|].
  rewrite setRole_transition by exact Hne.
  repeat split.
  intros c Hc. simpl in Hc. unfold write_events in Hc.
  destruct wf; simpl in Hc; apply list_elem_of_In in Hc; simpl in Hc;
    intuition discriminate.
Qed.

Lemma first_setRole_effective_witness :
  let w' := setRole "follower" "pod-a" (boot false) in
  currentRole (boot false) = "" ∧ roleCancel (boot false) = None
  ∧ currentRole (boot false) ≠ "follower"
  ∧ currentRole w' = "follower"
  ∧ (∀ c, EvCancel c ∉ trace w')
  ∧ roleCancel w' = Some 0
  ∧ contexts w' = [false]
  ∧ tasks w' = [mkTask 0 (markerOf "follower" (boot false)) "pod-a" AtSelect].
Proof.
  apply (first_setRole_effective MainGo host_a ∅ 0 false false elector_a
           (boot false) "follower" "pod-a").
  - vm_compute. reflexivity.
  - right. reflexivity.
Defined.

(** ** The guard looks at the role only *)

Lemma currentRole_setRole role identity w :
  currentRole (setRole role identity w) = role.
Proof.
  destruct (decide (currentRole w = role)) as [E|E].
  - by rewrite setRole_same.
  - by rewrite setRole_transition.
Qed.

(** C10.  The guard compares roles, never identities.  After a transition
    to [role] that wrote [id1] into the marker, a call with the same role
    and any identity [id2] changes nothing, and the marker still holds
    [id1]. *)
Theorem setRole_guard_ignores_identity (w : World) (role id1 id2 : string) :
  currentRole w ≠ role →
  writeFault w = false →
  let w1 := setRole role id1 w in
  let w2 := setRole role id2 w1 in
  w2 = w1
  ∧ content <$> files w2 !! markerOf role w2 = Some id1.
Proof.
  intros Hne Hwf w1 w2. subst w1 w2.
  rewrite (setRole_same role id2) by apply currentRole_setRole.
  split; [reflexivity|].
  unfold markerOf. rewrite leaderFile_setRole, followerFile_setRole.
  rewrite files_setRole by done. unfold markerOf.
  by rewrite lookup_insert_eq.
Qed.

Lemma setRole_guard_ignores_identity_witness :
  let w1 := setRole "leader" "pod-a" (boot false) in
  let w2 := setRole "leader" "pod-b" w1 in
  w2 = w1
  ∧ content <$> files w2 !! markerOf "leader" w2 = Some "pod-a".
Proof.
  apply (setRole_guard_ignores_identity (boot false) "leader" "pod-a" "pod-b").
  - vm_compute. discriminate.
  - reflexivity.
Defined.

(** ** [OnNewLeader] *)

(** The label patch of part_000 touches neither the markers nor the role
    machinery. *)
Lemma labelStep_frame el role w :
  let w' := labelStep el role w in
  files w' = files w ∧ currentRole w' = currentRole w
  ∧ roleCancel w' = roleCancel w ∧ contexts w' = contexts w
  ∧ tasks w' = tasks w.
Proof.
  unfold labelStep, patchPodRole.
  destruct (labelPodRole el), (patchFault w); repeat split.
Qed.

(** C7.  [OnNewLeader] calls [setRole "follower" id] when the announced
    identity differs from the pod's own, and only then (followed, in
    part_000 with labelling on, by the label patch, which leaves markers,
    role and goroutines alone).  When the announced identity is the pod's
    own, the callback returns the world untouched. *)
Theorem OnNewLeader_transition_iff_other (el : Elector) (identity : string) (w : World) :
  let w' := OnNewLeader el identity w in
  let ws := setRole "follower" (id el) w in
  (identity ≠ id el →
     w' = labelStep el "follower" ws
     ∧ files w' = files ws ∧ currentRole w' = currentRole ws
     ∧ roleCancel w' = roleCancel ws ∧ contexts w' = contexts ws
     ∧ tasks w' = tasks ws
     ∧ (labelPodRole el = false → w' = ws))
  ∧ (identity = id el → w' = w).
Proof.
  intros w' ws. subst w' ws. unfold OnNewLeader. split; intros H.
  - rewrite decide_True by done. split; [reflexivity|].
    pose proof (labelStep_frame el "follower" (setRole "follower" (id el) w)) as F.
    simpl in F. destruct F as (F1 & F2 & F3 & F4 & F5).
    repeat split; try assumption.
    intros Hl. unfold labelStep. by rewrite Hl.
  - rewrite decide_False; [reflexivity|]. intros Hn. by apply Hn.
Qed.

Lemma OnNewLeader_transition_iff_other_witness :
  let w := setRole "leader" "pod-a" (boot false) in
  (OnNewLeader elector_a "pod-b" w = setRole "follower" "pod-a" w)
  ∧ (OnNewLeader elector_a "pod-a" w = w).
Proof.
  pose proof (OnNewLeader_transition_iff_other elector_a "pod-b"
                (setRole "leader" "pod-a" (boot false))) as [Hb _].
  pose proof (OnNewLeader_transition_iff_other elector_a "pod-a"
                (setRole "leader" "pod-a" (boot false))) as [_ Ha].
  split.
  - apply Hb; [discriminate | reflexivity].
  - apply Ha. reflexivity.
Defined.

(** ** Start-up *)

Lemma os_Getenv_true h key :
  os_Getenv h key = "true" ↔ environ h !! key = Some "true".
Proof.
  unfold os_Getenv. destruct (environ h !! key) as [v|]; simpl; split;
    intros H; try congruence; discriminate.
Qed.

(** What the election is started with, read back from the environment. *)
Lemma main_RunOrDie_config ed h w0 el w :
  main ed h w0 = RunOrDie el w →
  environ h !! "LEASE_NAME" = Some (LeaseMeta_Name (Lock (config el)))
  ∧ environ h !! "NAMESPACE" = Some (namespace el)
  ∧ Hostname h = inl (id el)
  ∧ LockConfig_Identity (Lock (config el)) = id el
  ∧ LeaseDuration (config el) = (15 * time.Second)%Z
  ∧ RenewDeadline (config el) = (10 * time.Second)%Z
  ∧ RetryPeriod (config el) = (2 * time.Second)%Z
  ∧ (labelPodRole el = true →
       ed = PodLabel ∧ environ h !! "LABEL_POD_ROLE" = Some "true"
       ∧ environ h !! "POD_NAME" = Some (podName el))
  ∧ (labelPodRole el = false →
       ed = MainGo ∨ environ h !! "LABEL_POD_ROLE" ≠ Some "true").
Proof.
  unfold main. destruct (initStatus h w0) as [w1|p]; [|discriminate].
  destruct (match InClusterConfig_err h with None => None | Some _ => _ end);
    [discriminate|].
  destruct (NewForConfig_err h); [discriminate|].
  destruct (Hostname h) as [name|err]; [|discriminate].
  unfold os_LookupEnv.
  destruct (environ h !! "LEASE_NAME") as [lease|]; [|discriminate].
  destruct (environ h !! "NAMESPACE") as [ns|]; [|discriminate].
  cbn [negb].
  destruct (readPodLabelling ed h) as [[lbl pod]|p] eqn:Hl; [|discriminate].
  intros [= <- _]. cbn.
  repeat (split; [reflexivity|]).
  unfold readPodLabelling in Hl. destruct ed.
  - injection Hl as <- <-. split; [discriminate | by left].
  - destruct (decide (os_Getenv h "LABEL_POD_ROLE" = "true")) as [E|E].
    + unfold os_LookupEnv in Hl.
      destruct (environ h !! "POD_NAME") as [pn|]; [|discriminate].
      injection Hl as <- <-. apply os_Getenv_true in E.
      split; [done | discriminate].
    + injection Hl as <- <-. split; [discriminate|].
      intros _. right. by rewrite <- os_Getenv_true.
Qed.

(** C8.  When LEASE_NAME or NAMESPACE is unset, or LABEL_POD_ROLE is "true"
    in part_000 and POD_NAME is unset, [main] panics: it does not reach
    [leaderelection.RunOrDie], with any configuration. *)
Theorem main_missing_config_panics (ed : Edition) (h : Host) (w0 : World) :
  environ h !! "LEASE_NAME" = None
  ∨ environ h !! "NAMESPACE" = None
  ∨ (ed = PodLabel ∧ environ h !! "LABEL_POD_ROLE" = Some "true"
     ∧ environ h !! "POD_NAME" = None) →
  (∃ reason, main ed h w0 = Panic reason)
  ∧ (∀ el w, main ed h w0 ≠ RunOrDie el w).
Proof.
  intros Hmiss.
  assert (Hno : ∀ el w, main ed h w0 ≠ RunOrDie el w).
  { intros el w Hrun.
    destruct (main_RunOrDie_config _ _ _ _ _ Hrun)
      as (Hlease & Hns & _ & _ & _ & _ & _ & Hon & Hoff).
    destruct Hmiss as [Hm | [Hm | (-> & Hlab & Hpod)]]; try congruence.
    destruct (labelPodRole el).
    - destruct Hon as (_ & _ & Hp); [reflexivity | congruence].
    - destruct Hoff as [? | ?]; [reflexivity | discriminate | contradiction]. }
  split; [|exact Hno].
  destruct (main ed h w0) as [reason | el w] eqn:E.
  - by exists reason.
  - by destruct (Hno el w).
Qed.

Lemma main_missing_config_panics_witness :
  (∃ reason, main PodLabel host_no_pod (world0 ∅ 0 false false) = Panic reason)
  ∧ (∀ el w, main PodLabel host_no_pod (world0 ∅ 0 false false) ≠ RunOrDie el w).
Proof.
  apply (main_missing_config_panics PodLabel host_no_pod (world0 ∅ 0 false false)).
  right. right. split; [reflexivity|]. split; vm_compute; reflexivity.
Defined.

(** ** The tick period against the election's periods *)

(** C5, as the claim has it, fails in both editions: the election of pod
    "pod-a" runs with a retry period of 2 s, and the tick period is 5 s in
    main.go and 2 s in part_000. *)
Lemma tickInterval_below_RetryPeriod_fails :
  main MainGo host_a (world0 ∅ 0 false false) = RunOrDie elector_a (boot false)
  ∧ main PodLabel host_a (world0 ∅ 0 false false) = RunOrDie elector_a (boot false)
  ∧ ¬ (tickInterval MainGo < RetryPeriod (config elector_a))%Z
  ∧ ¬ (tickInterval PodLabel < RetryPeriod (config elector_a))%Z.
Proof.
  split; [apply main_host_a|]. split; [apply main_host_a|].
  split; vm_compute; discriminate.
Qed.

(** C5, amended.  In every election [main] starts, the tick period is not
    shorter than the retry period: it is equal to it (2 s) in part_000 and
    longer (5 s against 2 s) in main.go.  It is shorter than the renew
    deadline (10 s) and the lease duration (15 s). *)
Theorem tickInterval_vs_election_periods
    (ed : Edition) (h : Host) (w0 : World) (el : Elector) (w : World) :
  main ed h w0 = RunOrDie el w →
  (RetryPeriod (config el) ≤ tickInterval ed)%Z
  ∧ (ed = PodLabel → tickInterval ed = RetryPeriod (config el))
  ∧ (ed = MainGo →
       tickInterval ed = (5 * time.Second)%Z
       ∧ RetryPeriod (config el) = (2 * time.Second)%Z)
  ∧ (tickInterval ed < RenewDeadline (config el))%Z
  ∧ (RenewDeadline (config el) < LeaseDuration (config el))%Z.
Proof.
  intros Hrun.
  destruct (main_RunOrDie_config _ _ _ _ _ Hrun)
    as (_ & _ & _ & _ & Hld & Hrd & Hrp & _).
  rewrite Hld, Hrd, Hrp. unfold time.Second.
  destruct ed; cbn [tickInterval]; unfold time.Second; repeat split; try lia;
    discriminate.
Qed.

Lemma tickInterval_vs_election_periods_witness :
  (RetryPeriod (config elector_a) ≤ tickInterval PodLabel)%Z
  ∧ (PodLabel = PodLabel → tickInterval PodLabel = RetryPeriod (config elector_a))
  ∧ (PodLabel = MainGo →
       tickInterval PodLabel = (5 * time.Second)%Z
       ∧ RetryPeriod (config elector_a) = (2 * time.Second)%Z)
  ∧ (tickInterval PodLabel < RenewDeadline (config elector_a))%Z
  ∧ (RenewDeadline (config elector_a) < LeaseDuration (config elector_a))%Z.
Proof.
  apply (tickInterval_vs_election_periods PodLabel host_a
           (world0 ∅ 0 false false) elector_a (boot false)).
  vm_compute. reflexivity.
Defined.

(** ** One tick of the refresh goroutine *)

Lemma trace_log e w : trace (log e w) = trace w ++ [e].
Proof. reflexivity. Qed.

Lemma files_set_phase tid p w : files (set_phase tid p w) = files w.
Proof. unfold set_phase. by destruct (tasks w !! tid). Qed.

Lemma trace_set_phase tid p w : trace (set_phase tid p w) = trace w.
Proof. unfold set_phase. by destruct (tasks w !! tid). Qed.

Lemma currentRole_set_phase tid p w : currentRole (set_phase tid p w) = currentRole w.
Proof. unfold set_phase. by destruct (tasks w !! tid). Qed.

Lemma clock_set_phase tid p w : clock (set_phase tid p w) = clock w.
Proof. unfold set_phase. by destruct (tasks w !! tid). Qed.

Lemma writeFault_set_phase tid p w : writeFault (set_phase tid p w) = writeFault w.
Proof. unfold set_phase. by destruct (tasks w !! tid). Qed.

Lemma tasks_set_phase tid p w t :
  tasks w !! tid = Some t →
  tasks (set_phase tid p w) !! tid
  = Some (mkTask (t_ctx t) (t_filePath t) (t_identity t) p).
Proof.
  intros H. unfold set_phase. rewrite H. simpl.
  apply list_lookup_insert_eq. by eapply lookup_lt_Some.
Qed.

Lemma tick_decide_phase ed tid w t :
  tasks w !! tid = Some t →
  t_phase t = AtSelect →
  tick_decide ed tid (select_ticker tid w)
  = set_phase tid (if tick_writes ed w then WillWrite else WillTouch (clock w))
      (set_phase tid Ticked w).
Proof.
  intros Ht Hp. unfold select_ticker. rewrite Ht, Hp.
  unfold tick_decide. rewrite (tasks_set_phase _ _ _ _ Ht). cbn [t_phase].
  rewrite currentRole_set_phase, clock_set_phase. unfold tick_writes.
  destruct ed; [reflexivity|].
  destruct (decide (currentRole w = "leader")).
  - by rewrite bool_decide_eq_true_2.
  - by rewrite bool_decide_eq_false_2.
Qed.

(** A pending write lands, whatever has happened to the directory since the
    branch was chosen. *)
Lemma tick_perform_WillWrite tid w t :
  tasks w !! tid = Some t →
  t_phase t = WillWrite →
  writeFault w = false →
  files (tick_perform tid w)
  = <[t_filePath t := mkFile (t_identity t) (clock w)]> (files w)
  ∧ trace (tick_perform tid w)
    = trace w ++ [EvWriteFile (Refresh tid) (t_filePath t) (t_identity t) true].
Proof.
  intros Ht Hp Hwf. unfold tick_perform. rewrite Ht, Hp.
  unfold os_WriteFile. rewrite Hwf.
  by rewrite files_set_phase, trace_set_phase.
Qed.

Lemma tick_perform_WillTouch tid w t now :
  tasks w !! tid = Some t →
  t_phase t = WillTouch now →
  files (tick_perform tid w)
  = match files w !! t_filePath t with
    | Some f => <[t_filePath t := touched now f]> (files w)
    | None => files w
    end
  ∧ ∀ who name data ok, EvWriteFile who name data ok ∈ trace (tick_perform tid w) →
                        EvWriteFile who name data ok ∈ trace w.
Proof.
  intros Ht Hp. unfold tick_perform. rewrite Ht, Hp. unfold os_Chtimes.
  destruct (files w !! t_filePath t) as [f|];
    rewrite files_set_phase, trace_set_phase; (split; [reflexivity|]);
    intros who name data ok; unfold fmt_Printf; rewrite ?trace_log;
    rewrite ?elem_of_app, ?list_elem_of_singleton;
    intuition discriminate.
Qed.

(** The files after one whole tick of a goroutine blocked in [select]. *)
Lemma tick_files ed tid w t :
  tasks w !! tid = Some t →
  t_phase t = AtSelect →
  files (tick ed tid w)
  = if tick_writes ed w
    then (if writeFault w then files w
          else <[t_filePath t := mkFile (t_identity t) (clock w)]> (files w))
    else match files w !! t_filePath t with
         | Some f => <[t_filePath t := touched (clock w) f]> (files w)
         | None => files w
         end.
Proof.
  intros Ht Hp. unfold tick. rewrite (tick_decide_phase _ _ _ _ Ht Hp).
  pose proof (tasks_set_phase tid Ticked w t Ht) as H1.
  destruct (tick_writes ed w).
  - pose proof (tasks_set_phase tid WillWrite _ _ H1) as H2. cbn in H2.
    unfold tick_perform. rewrite H2. cbn [t_phase t_filePath t_identity].
    unfold os_WriteFile.
    rewrite writeFault_set_phase, writeFault_set_phase.
    destruct (writeFault w); rewrite files_set_phase; unfold fmt_Printf;
      cbn [files log set_files]; rewrite ?clock_set_phase, !files_set_phase;
      reflexivity.
  - pose proof (tasks_set_phase tid (WillTouch (clock w)) _ _ H1) as H2. cbn in H2.
    destruct (tick_perform_WillTouch _ _ _ _ H2 eq_refl) as [-> _].
    cbn [t_filePath]. by rewrite !files_set_phase.
Qed.

Lemma setRole_refreshing role identity w :
  currentRole w ≠ role →
  refreshing (setRole role identity w) (length (tasks w))
    (mkTask (length (contexts w)) (markerOf role w) identity AtSelect).
Proof.
  intros Hne. rewrite setRole_transition by done. unfold refreshing; simpl.
  split; [by apply list_lookup_middle|]. done.
Qed.

Lemma same_globals_refl w : same_globals w w.
Proof. by repeat split. Qed.

Lemma same_globals_trans w1 w2 w3 :
  same_globals w1 w2 → same_globals w2 w3 → same_globals w1 w3.
Proof. unfold same_globals. intros (?&?&?&?&?) (?&?&?&?&?). repeat split; congruence. Qed.

Lemma set_phase_globals tid p w : same_globals w (set_phase tid p w).
Proof. unfold set_phase. destruct (tasks w !! tid); by repeat split. Qed.

Lemma select_ticker_globals tid w : same_globals w (select_ticker tid w).
Proof.
  unfold select_ticker. repeat case_match;
    first [apply set_phase_globals | apply same_globals_refl].
Qed.

Lemma select_done_globals tid w : same_globals w (select_done tid w).
Proof.
  unfold select_done. repeat case_match;
    first [apply set_phase_globals | apply same_globals_refl].
Qed.

Lemma tick_decide_globals ed tid w : same_globals w (tick_decide ed tid w).
Proof.
  unfold tick_decide. repeat case_match;
    first [apply set_phase_globals | apply same_globals_refl].
Qed.

Lemma tick_perform_globals tid w : same_globals w (tick_perform tid w).
Proof.
  unfold tick_perform, os_WriteFile, os_Chtimes.
  repeat case_match; simplify_eq; try apply same_globals_refl;
    (eapply same_globals_trans; [|apply set_phase_globals]); by repeat split.
Qed.

Lemma tick_globals ed tid w : same_globals w (tick ed tid w).
Proof.
  unfold tick.
  eapply same_globals_trans; [apply select_ticker_globals|].
  eapply same_globals_trans; [apply tick_decide_globals|].
  apply tick_perform_globals.
Qed.

(** After its tick the goroutine is back in [select], unchanged. *)
Lemma tick_tasks ed tid w t :
  tasks w !! tid = Some t →
  t_phase t = AtSelect →
  tasks (tick ed tid w) !! tid = Some t.
Proof.
  intros Ht Hp. unfold tick. rewrite (tick_decide_phase _ _ _ _ Ht Hp).
  pose proof (tasks_set_phase tid Ticked w t Ht) as H1.
  destruct t as [c path ident ph]. cbn in Hp. subst ph. cbn in H1.
  destruct (tick_writes ed w).
  - pose proof (tasks_set_phase tid WillWrite _ _ H1) as H2. cbn in H2.
    unfold tick_perform. rewrite H2. cbn [t_phase t_filePath t_identity].
    unfold os_WriteFile. destruct (writeFault _); unfold fmt_Printf;
      by erewrite tasks_set_phase by exact H2.
  - pose proof (tasks_set_phase tid (WillTouch (clock w)) _ _ H1) as H2. cbn in H2.
    unfold tick_perform. rewrite H2. cbn [t_phase t_filePath t_identity].
    unfold os_Chtimes. destruct (files _ !! path); unfold fmt_Printf;
      by erewrite tasks_set_phase by exact H2.
Qed.

Lemma tick_refreshing ed tid w t :
  refreshing w tid t → refreshing (tick ed tid w) tid t.
Proof.
  intros (Ht & Hp & Hpath & Hrc).
  destruct (tick_globals ed tid w) as (Hl & Hf & Hcr & Hc & _).
  split; [by apply tick_tasks|]. split; [done|].
  unfold markerOf in *. by rewrite Hl, Hf, Hcr, Hc.
Qed.

(** C4, as the claim has it, fails in main.go: the goroutine bound to the
    leader marker touches and never writes.  After a transition to "leader"
    whose marker write failed, a tick with the fault gone leaves the leader
    marker missing; and on a healthy marker the tick issues [os.Chtimes],
    not [os.WriteFile]. *)
Lemma tick_MainGo_leader_never_rewrites :
  let w := set_writeFault false (setRole "leader" "pod-a" (boot true)) in
  let v := setRole "leader" "pod-a" (boot false) in
  refreshing w 0 (mkTask 0 "/tmp/leader_status/leader" "pod-a" AtSelect)
  ∧ currentRole w = "leader"
  ∧ files (tick MainGo 0 w) !! "/tmp/leader_status/leader" = None
  ∧ files (tick PodLabel 0 w) !! "/tmp/leader_status/leader" = Some (mkFile "pod-a" 0)
  ∧ trace (tick MainGo 0 v)
    = trace v ++ [EvChtimes (Refresh 0) "/tmp/leader_status/leader" 0 true].
Proof. vm_compute. repeat split. Qed.

(** C4, amended.  For a goroutine serving the role now held, one tick at
    time [clock w] does the following.  In part_000 with [currentRole]
    "leader" (and no write fault) it rewrites the leader marker in full:
    content the bound identity, modification time now.  In part_000 with
    [currentRole] "follower", and in main.go for either role, it only sets
    the modification time of the bound marker: the content is what it was,
    a missing marker stays missing, and no other path changes.  The
    goroutine then serves the role as before, so this holds at every
    tick. *)
Theorem tick_refreshes_marker (ed : Edition) (w : World) (tid : nat) (t : Task) :
  refreshing w tid t →
  let w' := tick ed tid w in
  (ed = PodLabel → currentRole w = "leader" → writeFault w = false →
     t_filePath t = leaderFile w
     ∧ files w' = <[leaderFile w := mkFile (t_identity t) (clock w)]> (files w))
  ∧ (ed = PodLabel → currentRole w = "follower" → t_filePath t = followerFile w)
  ∧ (ed = MainGo ∨ currentRole w = "follower" →
     files w' !! t_filePath t = touched (clock w) <$> files w !! t_filePath t
     ∧ (∀ p, p ≠ t_filePath t → files w' !! p = files w !! p))
  ∧ refreshing w' tid t.
Proof.
  intros Hr w'. subst w'. pose proof Hr as (Ht & Hp & Hpath & Hrc).
  rewrite (tick_files _ _ _ _ Ht Hp). unfold markerOf in Hpath.
  split; [|split; [|split]].
  - intros -> Hl Hwf. rewrite Hl in Hpath. rewrite decide_True in Hpath by done.
    split; [done|]. cbn [tick_writes].
    rewrite bool_decide_eq_true_2, Hwf, Hpath by done. reflexivity.
  - intros _ Hf. rewrite Hf in Hpath. by rewrite decide_False in Hpath.
  - intros Hcase.
    assert (tick_writes ed w = false) as ->.
    { destruct Hcase as [-> | Hf]; [reflexivity|].
      destruct ed; [reflexivity|]. cbn. rewrite Hf. reflexivity. }
    destruct (files w !! t_filePath t) as [f|] eqn:E; split.
    + by rewrite lookup_insert_eq.
    + intros p Hne. by rewrite lookup_insert_ne.
    + by rewrite E.
    + done.
  - by apply tick_refreshing.
Qed.

Lemma tick_refreshes_marker_witness :
  let w := setRole "leader" "pod-a" (boot false) in
  let t := mkTask 0 "/tmp/leader_status/leader" "pod-a" AtSelect in
  let w' := tick PodLabel 0 w in
  (PodLabel = PodLabel → currentRole w = "leader" → writeFault w = false →
     t_filePath t = leaderFile w
     ∧ files w' = <[leaderFile w := mkFile (t_identity t) (clock w)]> (files w))
  ∧ (PodLabel = PodLabel → currentRole w = "follower" → t_filePath t = followerFile w)
  ∧ (PodLabel = MainGo ∨ currentRole w = "follower" →
     files w' !! t_filePath t = touched (clock w) <$> files w !! t_filePath t
     ∧ (∀ p, p ≠ t_filePath t → files w' !! p = files w !! p))
  ∧ refreshing w' 0 t.
Proof.
  apply (tick_refreshes_marker PodLabel (setRole "leader" "pod-a" (boot false)) 0
           (mkTask 0 "/tmp/leader_status/leader" "pod-a" AtSelect)).
  vm_compute. repeat split.
Defined.

(** C3, as the claim has it, fails in part_000: with pod "pod-a" leading,
    the ticker fires and the goroutine chooses to rewrite; the pod then
    steps down ([setRole] cancels, removes both markers, writes the
    follower marker, returns); the goroutine's pending write then lands and
    both markers exist. *)
Lemma cancel_does_not_join :
  ¬ cancel_and_join PodLabel elector_a (boot false)
  ∧ (let w := run PodLabel elector_a stepping_down_mid_tick (boot false) in
     currentRole w = "follower"
     ∧ files w !! leaderFile w = Some (mkFile "pod-a" 0)
     ∧ files w !! followerFile w = Some (mkFile "pod-a" 0)).
Proof.
  split; [|vm_compute; repeat split].
  intros H. apply (H stepping_down_mid_tick 0).
  exists (mkTask 0 "/tmp/leader_status/leader" "pod-a" AtSelect).
  exists 5, 6, 10.
  exists (EvRemove "/tmp/leader_status/leader" true).
  exists (EvWriteFile (Refresh 0) "/tmp/leader_status/leader" "pod-a" true).
  vm_compute. repeat split; lia.
Qed.

(** C3, amended.  A call of [setRole] that passes the guard calls the
    cancel function of the goroutine in place (when there is one) before it
    removes or writes any marker, and the context is then marked cancelled;
    but it does not wait.  Every goroutine is left at the control point it
    had reached, so a tick already begun stays pending across the
    transition, and its write takes effect afterwards, onto the directory
    the transition has just rewritten.  A cancelled goroutine that is
    blocked in [select] can return, and then does nothing more. *)
Theorem setRole_cancels_first_without_join (w : World) (role identity : string) :
  currentRole w ≠ role →
  let w' := setRole role identity w in
  trace w'
  = trace w ++ cancel_events w
      ++ [EvRemove (leaderFile w) (present (leaderFile w) (files w));
          EvRemove (followerFile w)
            (present (followerFile w) (delete (leaderFile w) (files w)))]
      ++ write_events role identity w
      ++ [EvGoRefresh (length (tasks w))]
  ∧ (∀ c, roleCancel w = Some c → c < length (contexts w) → ctx_done c w' = true)
  ∧ (∀ tid t, tasks w !! tid = Some t → tasks w' !! tid = Some t)
  ∧ (∀ tid t, tasks w !! tid = Some t → t_phase t = WillWrite →
       writeFault w = false →
       files (tick_perform tid w')
       = <[t_filePath t := mkFile (t_identity t) (clock w)]> (files w')
       ∧ trace (tick_perform tid w')
         = trace w' ++ [EvWriteFile (Refresh tid) (t_filePath t) (t_identity t) true])
  ∧ (∀ tid t, tasks w !! tid = Some t → t_phase t = AtSelect →
       roleCancel w = Some (t_ctx t) → t_ctx t < length (contexts w) →
       let w'' := select_done tid w' in
       tasks w'' !! tid = Some (mkTask (t_ctx t) (t_filePath t) (t_identity t) Returned)
       ∧ ∀ ed el a, a ∈ [TickerFires tid; CtxDone tid; Decide tid; Perform tid] →
                    exec ed el w'' a = w'').
Proof.
  intros Hne w'. subst w'.
  assert (Hdone : ∀ c, roleCancel w = Some c → c < length (contexts w) →
                       ctx_done c (setRole role identity w) = true).
  { intros c Hc Hlt. rewrite setRole_transition by done.
    unfold ctx_done, cancelled_contexts. cbn [contexts]. rewrite Hc.
    rewrite lookup_app_l by (by rewrite length_insert).
    by rewrite list_lookup_insert_eq. }
  assert (Hkeep : ∀ tid t, tasks w !! tid = Some t →
                           tasks (setRole role identity w) !! tid = Some t).
  { intros tid t Ht. rewrite setRole_transition by done. cbn [tasks].
    rewrite lookup_app_l by (by eapply lookup_lt_Some). exact Ht. }
  split; [by rewrite setRole_transition|].
  split; [exact Hdone|]. split; [exact Hkeep|]. split.
  - intros tid t Ht Hp Hwf.
    destruct (tick_perform_WillWrite tid (setRole role identity w) t) as [Hf Htr].
    + by apply Hkeep.
    + exact Hp.
    + by rewrite setRole_transition.
    + rewrite Hf, Htr. split; [|reflexivity].
      f_equal. f_equal. by rewrite setRole_transition.
  - intros tid t Ht Hp Hrc Hlt w''. subst w''.
    pose proof (Hkeep _ _ Ht) as Ht'.
    assert (Hsel : select_done tid (setRole role identity w)
                   = set_phase tid Returned (setRole role identity w)).
    { unfold select_done. rewrite Ht', Hp. by rewrite (Hdone _ Hrc Hlt). }
    rewrite Hsel. pose proof (tasks_set_phase tid Returned _ _ Ht') as Hret.
    split; [exact Hret|].
    intros ed el a Ha. apply list_elem_of_In in Ha. simpl in Ha.
    destruct Ha as [<- | [<- | [<- | [<- | []]]]]; cbn [exec].
    + unfold select_ticker. by rewrite Hret.
    + unfold select_done. by rewrite Hret.
    + unfold tick_decide. by rewrite Hret.
    + unfold tick_perform. by rewrite Hret.
Qed.

Lemma setRole_cancels_first_without_join_witness :
  let w := run PodLabel elector_a [CallOnStartedLeading; TickerFires 0; Decide 0]
             (boot false) in
  let w' := setRole "follower" "pod-a" w in
  trace w' = trace w ++ [EvCancel 0]
      ++ [EvRemove "/tmp/leader_status/leader" true;
          EvRemove "/tmp/leader_status/follower" false]
      ++ [EvWriteFile Callback "/tmp/leader_status/follower" "pod-a" true]
      ++ [EvGoRefresh 1]
  ∧ ctx_done 0 w' = true
  ∧ tasks w' !! 0 = Some (mkTask 0 "/tmp/leader_status/leader" "pod-a" WillWrite)
  ∧ files (tick_perform 0 w') !! "/tmp/leader_status/leader" = Some (mkFile "pod-a" 0).
Proof.
  pose proof (setRole_cancels_first_without_join
                (run PodLabel elector_a [CallOnStartedLeading; TickerFires 0; Decide 0]
                   (boot false))
                "follower" "pod-a") as H.
  destruct H as (Htr & Hdone & Hkeep & Hwrite & _).
  { vm_compute. discriminate. }
  split; [exact Htr|]. split; [apply Hdone; [reflexivity | vm_compute; lia]|].
  split; [apply Hkeep; reflexivity|].
  destruct (Hwrite 0 (mkTask 0 "/tmp/leader_status/leader" "pod-a" WillWrite))
    as [Hf _]; [reflexivity | reflexivity | reflexivity |].
  rewrite Hf. apply lookup_insert_eq.
Defined.

(** * Beyond the claims: what holds in every reachable world *)

(** ** Coherence of the role machinery *)

Lemma started_world ed el w :
  started ed el w →
  ∃ dir fs now wf pf,
    w = log EvGoHealthServer
          (set_paths dir (filepath_Join dir "leader") (filepath_Join dir "follower")
             (world0 fs now wf pf)).
Proof.
  intros (h & fs & now & wf & pf & Hmain).
  destruct (main_RunOrDie_world _ _ _ _ _ Hmain) as [dir ->]. by eexists _, _, _, _, _.
Qed.

Lemma started_coherent ed el w : started ed el w → coherent el w.
Proof.
  intros Hs. destruct (started_world _ _ _ Hs) as (dir & fs & now & wf & pf & ->).
  split; cbn; try done.
  - intros H. apply filepath_Join_inj in H. discriminate.
  - intros i. lia.
  - by left.
Qed.

Lemma coherent_same_control el w w' :
  same_control w w' → coherent el w → coherent el w'.
Proof.
  intros [(Hl & Hf & Hr & Hc & Hx) Ht] [].
  split; unfold markerOf in *; rewrite ?Hl, ?Hf, ?Hr, ?Hc, ?Hx, ?Ht; done.
Qed.

Lemma tasks_set_phase_insert tid p w t :
  tasks w !! tid = Some t →
  tasks (set_phase tid p w)
  = <[tid := mkTask (t_ctx t) (t_filePath t) (t_identity t) p]> (tasks w).
Proof. intros H. unfold set_phase. by rewrite H. Qed.

(** Moving a goroutine to another control point keeps coherence, provided
    it returns only on a cancelled context. *)
Lemma coherent_set_phase el tid p w :
  coherent el w →
  (p = Returned → ctx_done tid w = true) →
  coherent el (set_phase tid p w).
Proof.
  intros Hc Hret. destruct (tasks w !! tid) as [t|] eqn:Ht;
    [|unfold set_phase; by rewrite Ht].
  destruct (set_phase_globals tid p w) as (Hl & Hf & Hr & Hrc & Hx).
  pose proof (tasks_set_phase_insert tid p w t Ht) as Hts.
  destruct Hc as [c1 c2 c3 c4 c5 c6 c7 c8].
  destruct (c3 _ _ Ht) as (Hctx & Hid & Hpath).
  split; unfold markerOf in *; rewrite ?Hl, ?Hf, ?Hr, ?Hrc, ?Hx, ?Hts, ?length_insert.
  - done.
  - done.
  - intros i t' Hi. apply list_lookup_insert_Some in Hi.
    destruct Hi as [(<- & <- & _) | [_ Hi]]; [done | by apply c3].
  - destruct (roleCancel w); [done|]. by rewrite c4 in Ht.
  - done.
  - destruct c6 as [[? Hnil] | [? ?]]; [by rewrite Hnil in Ht|].
    right. split; [done|]. intros Hnil.
    apply (f_equal length) in Hnil. rewrite length_insert in Hnil.
    by destruct (tasks w).
  - intros c t' Hcc Hi. apply list_lookup_insert_Some in Hi.
    destruct Hi as [(<- & <- & _) | [_ Hi]]; [|by eapply c7].
    destruct (c7 _ _ Hcc Ht) as (? & ? & Hlive). cbn. repeat split; try done.
    intros ->. specialize (Hret eq_refl). unfold ctx_done in Hret.
    by rewrite Hlive in Hret.
  - intros i t' Hi Hp. apply list_lookup_insert_Some in Hi.
    destruct Hi as [(<- & <- & _) | [_ Hi]]; [|by eapply c8].
    cbn in Hp. specialize (Hret Hp). unfold ctx_done in Hret.
    destruct (contexts w !! tid) as [[]|]; done.
Qed.

Lemma coherent_setRole el role w :
  coherent el w →
  role = "leader" ∨ role = "follower" →
  coherent el (setRole role (id el) w).
Proof.
  intros Hc Hrole. destruct (decide (currentRole w = role)) as [E|E];
    [by rewrite setRole_same|].
  rewrite setRole_transition by done.
  destruct Hc as [c1 c2 c3 c4 c5 c6 c7 c8].
  assert (Hold : ∀ i, i < length (contexts w) → cancelled_contexts w !! i = Some true).
  { intros i Hi. unfold cancelled_contexts.
    destruct (roleCancel w) as [c|] eqn:Hrc.
    - destruct (decide (c = i)) as [->|Hne].
      + by apply list_lookup_insert_eq.
      + rewrite list_lookup_insert_ne by done. apply c5. lia.
    - rewrite c4 in c2. cbn in c2. lia. }
  split; cbn [leaderFile followerFile currentRole roleCancel contexts tasks].
  - done.
  - by rewrite !length_app, length_cancelled_contexts, c2.
  - intros i t Hi. apply lookup_app_Some in Hi.
    destruct Hi as [Hi | [Hge Hi]]; [by apply c3|].
    apply list_lookup_singleton_Some in Hi. destruct Hi as [Hi <-]. cbn.
    split; [lia|]. split; [done|]. unfold markerOf. case_decide; auto.
  - rewrite length_app. cbn. lia.
  - intros i. rewrite length_app, length_cancelled_contexts. cbn. intros Hi.
    rewrite lookup_app_l by (rewrite length_cancelled_contexts; lia).
    apply Hold. lia.
  - right. split; [done|]. by destruct (tasks w).
  - intros c t [= <-] Hi. rewrite c2 in Hi.
    rewrite list_lookup_middle in Hi by done. injection Hi as <-. cbn.
    split; [|split; [done|]].
    + unfold markerOf. by cbn.
    + rewrite <- (length_cancelled_contexts w). by apply list_lookup_middle.
  - intros i t Hi Hp. apply lookup_app_Some in Hi.
    destruct Hi as [Hi | [Hge Hi]].
    + rewrite lookup_app_l by (rewrite length_cancelled_contexts, c2;
                                by eapply lookup_lt_Some).
      apply Hold. rewrite c2. by eapply lookup_lt_Some.
    + apply list_lookup_singleton_Some in Hi. destruct Hi as [_ <-]. done.
Qed.

Lemma same_control_refl w : same_control w w.
Proof. split; [apply same_globals_refl | done]. Qed.

Lemma labelStep_same_control el role w : same_control w (labelStep el role w).
Proof.
  unfold labelStep, patchPodRole.
  destruct (labelPodRole el), (patchFault w); by repeat split.
Qed.

(** The file operation of a tick leaves the control state alone. *)
Lemma tick_perform_shape tid w :
  tick_perform tid w = w
  ∨ ∃ w2, same_control w w2 ∧ tick_perform tid w = set_phase tid AtSelect w2.
Proof.
  unfold tick_perform. destruct (tasks w !! tid) as [t|]; [|by left].
  destruct (t_phase t); try by left.
  - right. unfold os_WriteFile. destruct (writeFault w);
      eexists; (split; [|reflexivity]); by repeat split.
  - right. unfold os_Chtimes. destruct (files w !! t_filePath t);
      eexists; (split; [|reflexivity]); by repeat split.
Qed.

Lemma coherent_exec ed el a w : coherent el w → coherent el (exec ed el w a).
Proof.
  intros Hc. destruct a as [| |identity|tid|tid|tid|tid|now]; cbn [exec].
  - eapply coherent_same_control; [apply labelStep_same_control|].
    apply coherent_setRole; auto.
  - eapply coherent_same_control; [apply labelStep_same_control|].
    apply coherent_setRole; auto.
  - unfold OnNewLeader. case_decide; [|done].
    eapply coherent_same_control; [apply labelStep_same_control|].
    apply coherent_setRole; auto.
  - unfold select_ticker. repeat case_match; try done.
    by apply coherent_set_phase.
  - unfold select_done. destruct (tasks w !! tid) as [t|] eqn:Ht; [|done].
    destruct (t_phase t); try done.
    destruct (ctx_done (t_ctx t) w) eqn:Hd; [|done].
    apply coherent_set_phase; [done|]. intros _.
    destruct (coh_task _ _ Hc _ _ Ht) as [<- _]. done.
  - unfold tick_decide. repeat case_match; try done;
      by apply coherent_set_phase.
  - destruct (tick_perform_shape tid w) as [-> | (w2 & Hs & ->)]; [done|].
    apply coherent_set_phase; [|done]. by eapply coherent_same_control.
  - eapply coherent_same_control; [|done]. by repeat split.
Qed.

Lemma coherent_step ed el w w' : step ed el w w' → coherent el w → coherent el w'.
Proof.
  intros [a ? | b ? | b ?] Hc.
  - by apply coherent_exec.
  - eapply coherent_same_control; [|done]. by repeat split.
  - eapply coherent_same_control; [|done]. by repeat split.
Qed.

Lemma coherent_rtc ed el w w' :
  rtc (step ed el) w w' → coherent el w → coherent el w'.
Proof. induction 1; eauto using coherent_step. Qed.

Lemma reachable_coherent ed el w : reachable ed el w → coherent el w.
Proof.
  intros (w0 & Hs & Hr). eapply coherent_rtc; [done|]. by eapply started_coherent.
Qed.

(** Schedules give reachable worlds. *)
Lemma run_rtc ed el acts w : rtc (step ed el) w (run ed el acts w).
Proof.
  revert w. induction acts as [|a acts IH]; intros w; cbn.
  - done.
  - eapply rtc_l; [apply step_action | apply IH].
Qed.

Lemma boot_started ed : started ed elector_a (boot false).
Proof. exists host_a, ∅, 0%Z, false, false. apply main_host_a. Qed.

Lemma run_reachable ed acts : reachable ed elector_a (run ed elector_a acts (boot false)).
Proof. exists (boot false). split; [apply boot_started | apply run_rtc]. Qed.

(** ** What one step can do *)

(** A callback either does nothing or is [setRole] with "leader" or
    "follower" and the pod's own identity, followed by the label step. *)
Lemma callback_inv ed el a w :
  match a with
  | CallOnStartedLeading | CallOnStoppedLeading | CallOnNewLeader _ => True
  | _ => False
  end →
  exec ed el w a = w
  ∨ ∃ role, (role = "leader" ∨ role = "follower")
            ∧ exec ed el w a = labelStep el role (setRole role (id el) w).
Proof.
  destruct a; cbn [exec]; try done; intros _.
  - right. exists "leader". auto.
  - right. exists "follower". auto.
  - unfold OnNewLeader. case_decide; [|by left].
    right. exists "follower". auto.
Qed.

(** A step of a refresh goroutine either does nothing or moves that
    goroutine to another control point after at most one file operation on
    its own marker: the rewrite it had decided on, or a touch of an
    existing file. *)
Lemma goroutine_inv ed el a tid w :
  a ∈ [TickerFires tid; CtxDone tid; Decide tid; Perform tid] →
  exec ed el w a = w
  ∨ ∃ t p w2,
      tasks w !! tid = Some t
      ∧ same_control w w2
      ∧ exec ed el w a = set_phase tid p w2
      ∧ (p = WillWrite → ed = PodLabel)
      ∧ (files w2 = files w
         ∨ (t_phase t = WillWrite
            ∧ files w2 = <[t_filePath t := mkFile (t_identity t) (clock w)]> (files w))
         ∨ (∃ now f, files w !! t_filePath t = Some f
                     ∧ files w2 = <[t_filePath t := touched now f]> (files w)))
      ∧ ∃ evs, trace w2 = trace w ++ evs ∧ Forall (λ e, is_patch e = false) evs
               ∧ reported evs = true.
Proof.
  intros Ha. apply list_elem_of_In in Ha. cbn in Ha.
  destruct Ha as [<- | [<- | [<- | [<- | []]]]]; cbn [exec].
  - unfold select_ticker. destruct (tasks w !! tid) as [t|] eqn:Ht; [|by left].
    destruct (t_phase t); try by left.
    right. exists t, Ticked, w. repeat split; try done; [by left|].
    exists []. rewrite app_nil_r. by repeat split.
  - unfold select_done. destruct (tasks w !! tid) as [t|] eqn:Ht; [|by left].
    destruct (t_phase t); try by left.
    destruct (ctx_done (t_ctx t) w); [|by left].
    right. exists t, Returned, w. repeat split; try done; [by left|].
    exists []. rewrite app_nil_r. by repeat split.
  - unfold tick_decide. destruct (tasks w !! tid) as [t|] eqn:Ht; [|by left].
    destruct (t_phase t); try by left.
    right. destruct ed; [|case_decide].
    + exists t, (WillTouch (clock w)), w. repeat split; try done; [by left|].
      exists []. rewrite app_nil_r. by repeat split.
    + exists t, WillWrite, w. repeat split; try done; [by left|].
      exists []. rewrite app_nil_r. by repeat split.
    + exists t, (WillTouch (clock w)), w. repeat split; try done; [by left|].
      exists []. rewrite app_nil_r. by repeat split.
  - unfold tick_perform. destruct (tasks w !! tid) as [t|] eqn:Ht; [|by left].
    destruct (t_phase t) eqn:Hp; try by left.
    + right. unfold os_WriteFile. destruct (writeFault w); lazy beta iota zeta;
        match goal with |- context [set_phase tid AtSelect ?W] =>
          exists t, AtSelect, W end;
        (split; [done|]); (split; [by repeat split|]);
        (split; [reflexivity|]); (split; [done|]).
      * split; [by left|].
        eexists [_; _]. split; [unfold fmt_Printf; cbn; by rewrite <- app_assoc|].
        split; [by repeat constructor | reflexivity].
      * split; [right; left; by split|].
        eexists [_]. split; [reflexivity|]. split; [by repeat constructor | reflexivity].
    + right. unfold os_Chtimes.
      destruct (files w !! t_filePath t) as [f|] eqn:Hf; lazy beta iota zeta;
        match goal with |- context [set_phase tid AtSelect ?W] =>
          exists t, AtSelect, W end;
        (split; [done|]); (split; [by repeat split|]);
        (split; [reflexivity|]); (split; [done|]).
      * split; [right; right; by eexists _, _|].
        eexists [_]. split; [reflexivity|]. split; [by repeat constructor | reflexivity].
      * split; [by left|].
        eexists [_; _]. split; [unfold fmt_Printf; cbn; by rewrite <- app_assoc|].
        split; [by repeat constructor | reflexivity].
Qed.

(** Every action is a callback, a goroutine step or the clock. *)
Lemma action_cases a :
  match a with
  | CallOnStartedLeading | CallOnStoppedLeading | CallOnNewLeader _ => True
  | _ => False
  end
  ∨ (∃ tid, a ∈ [TickerFires tid; CtxDone tid; Decide tid; Perform tid])
  ∨ ∃ now, a = TimePasses now.
Proof.
  destruct a as [| |i|tid|tid|tid|tid|now];
    [by left | by left | by left | | | | | right; right; by eexists];
    right; left; exists tid; apply list_elem_of_In; cbn; tauto.
Qed.

Lemma step_paths ed el w w' :
  step ed el w w' →
  leaderFile w' = leaderFile w ∧ followerFile w' = followerFile w
  ∧ (currentRole w' = currentRole w ∨ currentRole w' = "leader"
     ∨ currentRole w' = "follower").
Proof.
  intros Hs. destruct Hs as [a w | b w | b w]; [|by auto..].
  destruct (action_cases a) as [Hcb | [[tid Hg] | [now ->]]]; [| |by auto].
  - destruct (callback_inv ed el a w Hcb) as [-> | (role & Hrole & ->)]; [by auto|].
    destruct (labelStep_same_control el role (setRole role (id el) w))
      as [(-> & -> & -> & _) _].
    rewrite leaderFile_setRole, followerFile_setRole, currentRole_setRole.
    by repeat split; right.
  - destruct (goroutine_inv ed el a tid w Hg)
      as [-> | (t & p & w2 & _ & [(Hl & Hf & Hr & _) _] & -> & _)]; [by auto|].
    destruct (set_phase_globals tid p w2) as (-> & -> & -> & _). auto.
Qed.

Lemma files_setRole_cases role identity w :
  files (setRole role identity w) = files w ∧ currentRole w = role
  ∨ currentRole w ≠ role
    ∧ (files (setRole role identity w) = cleared w
       ∨ files (setRole role identity w)
         = <[markerOf role w := mkFile identity (clock w)]> (cleared w)).
Proof.
  destruct (decide (currentRole w = role)) as [E|E].
  - left. by rewrite setRole_same.
  - right. split; [done|]. rewrite setRole_transition by done. cbn.
    destruct (writeFault w); auto.
Qed.

Lemma markerOf_cases role w :
  markerOf role w = leaderFile w ∨ markerOf role w = followerFile w.
Proof. unfold markerOf. case_decide; auto. Qed.

Lemma cleared_other w p :
  p ≠ leaderFile w → p ≠ followerFile w → cleared w !! p = files w !! p.
Proof. intros H1 H2. unfold cleared. by rewrite !lookup_delete_ne. Qed.

(** One step leaves every path but the two markers alone. *)
Lemma step_files_other ed el w w' p :
  coherent el w → step ed el w w' →
  p ≠ leaderFile w → p ≠ followerFile w →
  files w' !! p = files w !! p.
Proof.
  intros Hc Hs. destruct Hs as [a w | b w | b w]; intros Hl Hf; [|done..].
  destruct (action_cases a) as [Hcb | [[tid Hg] | [now ->]]]; [| |done].
  - destruct (callback_inv ed el a w Hcb) as [-> | (role & Hrole & ->)]; [done|].
    destruct (labelStep_frame el role (setRole role (id el) w)) as [-> _].
    destruct (files_setRole_cases role (id el) w) as [[-> _] | [_ [-> | ->]]].
    + done.
    + by apply cleared_other.
    + rewrite lookup_insert_ne; [by apply cleared_other|].
      destruct (markerOf_cases role w) as [-> | ->]; done.
  - destruct (goroutine_inv ed el a tid w Hg)
      as [-> | (t & q & w2 & Ht & _ & -> & _ & Hfs & _)]; [done|].
    rewrite files_set_phase.
    destruct (coh_task _ _ Hc _ _ Ht) as (_ & _ & Hpath).
    assert (t_filePath t ≠ p) by (destruct Hpath as [-> | ->]; done).
    destruct Hfs as [-> | [[_ ->] | (now & f & _ & ->)]];
      [done | by rewrite lookup_insert_ne..].
Qed.

Lemma rtc_files_other ed el w w' :
  rtc (step ed el) w w' → coherent el w →
  leaderFile w' = leaderFile w ∧ followerFile w' = followerFile w
  ∧ ∀ p, p ≠ leaderFile w → p ≠ followerFile w → files w' !! p = files w !! p.
Proof.
  induction 1 as [w | w w1 w' Hstep _ IH]; intros Hc; [done|].
  destruct (step_paths _ _ _ _ Hstep) as (Hl & Hf & _).
  destruct (IH (coherent_step _ _ _ _ Hstep Hc)) as (Hl' & Hf' & Hfiles).
  rewrite Hl', Hf', Hl, Hf. repeat split.
  intros p H1 H2. rewrite Hfiles by congruence.
  by eapply step_files_other.
Qed.

Lemma rtc_role_known ed el w w' :
  rtc (step ed el) w w' → currentRole w ≠ "" → currentRole w' ≠ "".
Proof.
  induction 1 as [w | w w1 w' Hstep _ IH]; [done|]. intros Hne. apply IH.
  destruct (step_paths _ _ _ _ Hstep) as (_ & _ & [-> | [-> | ->]]); done.
Qed.

(** ** Contexts and goroutines *)



(** X2.  In every reachable world [currentRole] is empty, "leader" or
    "follower", and it is empty exactly as long as no refresh goroutine has
    been started and [roleCancel] is nil. *)
Theorem role_unknown_iff_nothing_started (ed : Edition) (el : Elector) (w : World) :
  reachable ed el w →
  (currentRole w = "" ∨ currentRole w = "leader" ∨ currentRole w = "follower")
  ∧ (currentRole w = "" ↔ tasks w = [])
  ∧ (currentRole w = "" ↔ roleCancel w = None).
Proof.
  intros Hr. destruct (reachable_coherent _ _ _ Hr) as [c1 c2 c3 c4 c5 c6 c7 c8].
  destruct c6 as [[Hrole Hnil] | [Hrole Hne]].
  - split; [by left|]. split; [done|]. split; [|done]. intros _.
    destruct (roleCancel w); [|done]. rewrite Hnil in c4. cbn in c4. lia.
  - split; [by right|].
    assert (currentRole w ≠ "") by (destruct Hrole as [-> | ->]; done).
    split; [done|]. split; [done|]. intros Hrc. by rewrite Hrc in c4.
Qed.

Lemma role_unknown_iff_nothing_started_witness :
  let w := run MainGo elector_a [CallOnNewLeader "pod-b"; TickerFires 0] (boot false) in
  (currentRole w = "" ∨ currentRole w = "leader" ∨ currentRole w = "follower")
  ∧ (currentRole w = "" ↔ tasks w = [])
  ∧ (currentRole w = "" ↔ roleCancel w = None).
Proof.
  apply (role_unknown_iff_nothing_started MainGo elector_a). apply run_reachable.
Defined.

(** X3.  Once [currentRole] is set, no callback, goroutine step or fault
    ever makes it empty again. *)
Theorem role_never_returns_to_unknown (ed : Edition) (el : Elector) (w w' : World) :
  rtc (step ed el) w w' →
  currentRole w ≠ "" →
  currentRole w' ≠ "".
Proof. apply rtc_role_known. Qed.

Lemma role_never_returns_to_unknown_witness :
  currentRole
    (run PodLabel elector_a [CallOnStoppedLeading; CtxDone 0; CallOnNewLeader "pod-a"]
       (setRole "leader" "pod-a" (boot false))) ≠ "".
Proof.
  apply (role_never_returns_to_unknown PodLabel elector_a
           (setRole "leader" "pod-a" (boot false))).
  - apply run_rtc.
  - vm_compute. discriminate.
Defined.



(** X5.  A refresh goroutine returns only after its context was cancelled.
    The goroutine serving the current role has therefore not returned, and
    its [select] cannot take the [ctx.Done()] case. *)
Theorem goroutine_returns_only_when_cancelled (ed : Edition) (el : Elector) (w : World) :
  reachable ed el w →
  (∀ i t, tasks w !! i = Some t → t_phase t = Returned →
     contexts w !! i = Some true ∧ roleCancel w ≠ Some i)
  ∧ (∀ c, roleCancel w = Some c → select_done c w = w).
Proof.
  intros Hr. destruct (reachable_coherent _ _ _ Hr) as [c1 c2 c3 c4 c5 c6 c7 c8].
  split.
  - intros i t Hi Hp. split; [by eapply c8|].
    intros Hc. destruct (c7 _ _ Hc Hi) as (_ & Hn & _). done.
  - intros c Hc. unfold select_done.
    destruct (tasks w !! c) as [t|] eqn:Ht; [|done].
    destruct (c7 _ _ Hc Ht) as (_ & _ & Hlive).
    destruct (c3 _ _ Ht) as (Hctx & _). unfold ctx_done. rewrite Hctx, Hlive.
    by destruct (t_phase t).
Qed.

Lemma goroutine_returns_only_when_cancelled_witness :
  let w := run MainGo elector_a
             [CallOnStartedLeading; CallOnStoppedLeading; CtxDone 0; CtxDone 1]
             (boot false) in
  (∀ i t, tasks w !! i = Some t → t_phase t = Returned →
     contexts w !! i = Some true ∧ roleCancel w ≠ Some i)
  ∧ (∀ c, roleCancel w = Some c → select_done c w = w).
Proof.
  apply (goroutine_returns_only_when_cancelled MainGo elector_a). apply run_reachable.
Defined.

(** ** The status directory *)

(** X6.  From start-up on, the program never creates, changes or removes
    any path other than the two markers, and the marker paths themselves
    never change. *)
Theorem only_markers_touched (ed : Edition) (el : Elector) (w0 w : World) :
  reachable_from ed el w0 w →
  leaderFile w = leaderFile w0 ∧ followerFile w = followerFile w0
  ∧ ∀ p, p ≠ leaderFile w0 → p ≠ followerFile w0 → files w !! p = files w0 !! p.
Proof.
  intros [Hs Hr]. eapply rtc_files_other; [done|]. by eapply started_coherent.
Qed.

Lemma only_markers_touched_witness :
  let w0 := boot false in
  let w := run PodLabel elector_a stepping_down_mid_tick w0 in
  leaderFile w = leaderFile w0 ∧ followerFile w = followerFile w0
  ∧ ∀ p, p ≠ leaderFile w0 → p ≠ followerFile w0 → files w !! p = files w0 !! p.
Proof.
  apply (only_markers_touched PodLabel elector_a).
  split; [apply boot_started | apply run_rtc].
Defined.

(** Once a role is held, a marker that exists holds the pod's identity. *)
Lemma step_marker_content ed el w w' :
  coherent el w → step ed el w w' →
  (currentRole w ≠ "" →
   ∀ p f, p = leaderFile w ∨ p = followerFile w → files w !! p = Some f →
          content f = id el) →
  currentRole w' ≠ "" →
  ∀ p f, p = leaderFile w' ∨ p = followerFile w' → files w' !! p = Some f →
         content f = id el.
Proof.
  intros Hc Hs. destruct Hs as [a w | b w | b w]; intros IH; [|exact IH..].
  destruct (action_cases a) as [Hcb | [[tid Hg] | [now ->]]]; [| |exact IH].
  - destruct (callback_inv ed el a w Hcb) as [-> | (role & Hrole & ->)]; [exact IH|].
    destruct (labelStep_same_control el role (setRole role (id el) w))
      as [(-> & -> & -> & _) _].
    destruct (labelStep_frame el role (setRole role (id el) w)) as [-> _].
    rewrite leaderFile_setRole, followerFile_setRole. intros _ p f Hp.
    destruct (files_setRole_cases role (id el) w) as [[-> E] | [_ [-> | ->]]].
    + apply IH; [|done]. rewrite E. destruct Hrole as [-> | ->]; done.
    + destruct Hp as [-> | ->]; by rewrite ?cleared_leader, ?cleared_follower.
    + destruct (decide (markerOf role w = p)) as [<- | Hne].
      * rewrite lookup_insert_eq. by intros [= <-].
      * rewrite lookup_insert_ne by done.
        destruct Hp as [-> | ->]; by rewrite ?cleared_leader, ?cleared_follower.
  - destruct (goroutine_inv ed el a tid w Hg)
      as [-> | (t & q & w2 & Ht & [(Hl & Hf & Hr & _) _] & -> & _ & Hfs & _)];
      [exact IH|].
    destruct (set_phase_globals tid q w2) as (-> & -> & -> & _).
    rewrite files_set_phase, Hl, Hf, Hr. intros Hne p f Hp.
    destruct (coh_task _ _ Hc _ _ Ht) as (_ & Hid & Hpath).
    destruct Hfs as [-> | [[_ ->] | (now & f0 & Hf0 & ->)]].
    + by apply IH.
    + destruct (decide (t_filePath t = p)) as [<- | Hnp].
      * rewrite lookup_insert_eq. by intros [= <-].
      * rewrite lookup_insert_ne by done. by apply IH.
    + destruct (decide (t_filePath t = p)) as [<- | Hnp].
      * rewrite lookup_insert_eq. intros [= <-]. cbn. by eapply IH.
      * rewrite lookup_insert_ne by done. by apply IH.
Qed.

(** X7.  In every reachable world in which a role is held, each marker
    that exists contains the pod's own identity, under any interleaving of
    callbacks and goroutine steps and whatever the directory held at
    start-up. *)
Theorem markers_hold_own_identity (ed : Edition) (el : Elector) (w : World) :
  reachable ed el w →
  currentRole w ≠ "" →
  ∀ p f, p = leaderFile w ∨ p = followerFile w → files w !! p = Some f →
         content f = id el.
Proof.
  intros (w0 & Hs & Hr).
  pose proof (started_coherent _ _ _ Hs) as Hc.
  assert (H0 : currentRole w0 ≠ "" →
               ∀ p f, p = leaderFile w0 ∨ p = followerFile w0 →
                      files w0 !! p = Some f → content f = id el).
  { destruct (started_world _ _ _ Hs) as (dir & fs & now & wf & pf & ->). done. }
  clear Hs. induction Hr as [w | w w1 w' Hstep _ IH]; [exact H0|].
  apply IH; [by eapply coherent_step|]. by eapply step_marker_content.
Qed.

Lemma markers_hold_own_identity_witness :
  let w := run PodLabel elector_a stepping_down_mid_tick (boot false) in
  files w !! leaderFile w = Some (mkFile "pod-a" 0)
  ∧ files w !! followerFile w = Some (mkFile "pod-a" 0)
  ∧ content (mkFile "pod-a" 0) = id elector_a.
Proof.
  split; [vm_compute; reflexivity|]. split; [vm_compute; reflexivity|].
  refine (markers_hold_own_identity PodLabel elector_a
            (run PodLabel elector_a stepping_down_mid_tick (boot false))
            _ _ "/tmp/leader_status/leader" (mkFile "pod-a" 0) _ _).
  - apply run_reachable.
  - vm_compute. discriminate.
  - left. reflexivity.
  - vm_compute. reflexivity.
Defined.

(** In main.go no goroutine is ever about to rewrite, and the marker of the
    other role stays away. *)
Lemma step_MainGo_exclusive el w w' :
  coherent el w → step MainGo el w w' →
  ((∀ i t, tasks w !! i = Some t → t_phase t ≠ WillWrite)
   ∧ (currentRole w = "leader" → files w !! followerFile w = None)
   ∧ (currentRole w = "follower" → files w !! leaderFile w = None)) →
  (∀ i t, tasks w' !! i = Some t → t_phase t ≠ WillWrite)
  ∧ (currentRole w' = "leader" → files w' !! followerFile w' = None)
  ∧ (currentRole w' = "follower" → files w' !! leaderFile w' = None).
Proof.
  intros Hc Hs. destruct Hs as [a w | b w | b w]; intros IH; [|exact IH..].
  destruct (action_cases a) as [Hcb | [[tid Hg] | [now ->]]]; [| |exact IH].
  - destruct (callback_inv MainGo el a w Hcb) as [-> | (role & Hrole & ->)];
      [exact IH|].
    destruct (labelStep_same_control el role (setRole role (id el) w))
      as [(-> & -> & -> & _) ->].
    destruct (labelStep_frame el role (setRole role (id el) w)) as [-> _].
    rewrite leaderFile_setRole, followerFile_setRole, currentRole_setRole.
    destruct IH as (IHp & IHl & IHf). pose proof (coh_paths _ _ Hc) as Hd.
    destruct (decide (currentRole w = role)) as [E|E].
    { rewrite setRole_same by done. rewrite <- E. done. }
    split.
    + rewrite setRole_transition by done. cbn [tasks]. intros i t Hi.
      apply lookup_app_Some in Hi. destruct Hi as [Hi | [_ Hi]]; [by eapply IHp|].
      apply list_lookup_singleton_Some in Hi. by destruct Hi as [_ <-].
    + destruct (files_setRole_cases role (id el) w) as [[_ ?] | [_ [-> | ->]]];
        [done | |]; unfold markerOf.
      * split; intros _; by rewrite ?cleared_leader, ?cleared_follower.
      * split; intros ->.
        -- rewrite decide_True by done. rewrite lookup_insert_ne by done.
           apply cleared_follower.
        -- rewrite decide_False by done. rewrite lookup_insert_ne by done.
           apply cleared_leader.
  - destruct (goroutine_inv MainGo el a tid w Hg)
      as [-> | (t & q & w2 & Ht & [(Hl & Hf & Hr & _) Hts] & -> & Hq & Hfs & _)];
      [exact IH|].
    destruct IH as (IHp & IHl & IHf).
    destruct (set_phase_globals tid q w2) as (-> & -> & -> & _).
    rewrite files_set_phase, Hl, Hf, Hr. split.
    + intros i t' Hi. rewrite <- Hts in Ht.
      rewrite (tasks_set_phase_insert _ _ _ _ Ht) in Hi.
      apply list_lookup_insert_Some in Hi.
      destruct Hi as [(_ & <- & _) | [_ Hi]].
      * cbn. intros ->. by specialize (Hq eq_refl).
      * rewrite Hts in Hi. by eapply IHp.
    + destruct Hfs as [-> | [[Hp _] | (now & f & Hf0 & ->)]]; [done | |].
      * by destruct (IHp _ _ Ht).
      * split; intros Hrole.
        -- rewrite lookup_insert_ne; [by apply IHl|].
           intros E. rewrite E, (IHl Hrole) in Hf0. discriminate.
        -- rewrite lookup_insert_ne; [by apply IHf|].
           intros E. rewrite E, (IHf Hrole) in Hf0. discriminate.
Qed.

(** X8.  In main.go (touch-only refresh), with callbacks run one at a
    time, every reachable world has at most the marker of the current
    role: while the role is "leader" there is no follower marker, and while
    it is "follower" there is no leader marker, whatever tick was in flight
    during a transition. *)
Theorem MainGo_other_marker_absent (el : Elector) (w : World) :
  reachable MainGo el w →
  (currentRole w = "leader" → files w !! followerFile w = None)
  ∧ (currentRole w = "follower" → files w !! leaderFile w = None).
Proof.
  intros (w0 & Hs & Hr).
  pose proof (started_coherent _ _ _ Hs) as Hc.
  cut ((∀ i t, tasks w !! i = Some t → t_phase t ≠ WillWrite)
       ∧ (currentRole w = "leader" → files w !! followerFile w = None)
       ∧ (currentRole w = "follower" → files w !! leaderFile w = None));
    [tauto|].
  assert (H0 : (∀ i t, tasks w0 !! i = Some t → t_phase t ≠ WillWrite)
               ∧ (currentRole w0 = "leader" → files w0 !! followerFile w0 = None)
               ∧ (currentRole w0 = "follower" → files w0 !! leaderFile w0 = None)).
  { destruct (started_world _ _ _ Hs) as (dir & fs & now & wf & pf & ->). done. }
  clear Hs. induction Hr as [w | w w1 w' Hstep _ IH]; [exact H0|].
  apply IH; [by eapply coherent_step|]. by eapply step_MainGo_exclusive.
Qed.

Lemma MainGo_other_marker_absent_witness :
  let w := run MainGo elector_a stepping_down_mid_tick (boot false) in
  (currentRole w = "leader" → files w !! followerFile w = None)
  ∧ (currentRole w = "follower" → files w !! leaderFile w = None).
Proof.
  apply (MainGo_other_marker_absent elector_a). apply run_reachable.
Defined.

(** ** The trace: patches and error reports *)

Lemma reported_app a b :
  reported a = true → reported b = true → reported (a ++ b) = true.
Proof.
  induction a as [|e a IH]; [done|]. cbn [reported app].
  intros [H1 H2]%andb_prop Hb. rewrite (IH H2 Hb), andb_true_r.
  destruct (failed e); [|done]. by destruct a.
Qed.



Lemma setRole_trace role identity w :
  ∃ evs, trace (setRole role identity w) = trace w ++ evs
         ∧ Forall (λ e, is_patch e = false) evs
         ∧ reported evs = true.
Proof.
  destruct (decide (currentRole w = role)) as [E|E].
  - exists []. rewrite setRole_same, app_nil_r by done. by repeat split.
  - rewrite setRole_transition by done. cbn [trace]. eexists. split; [reflexivity|].
    unfold cancel_events, write_events.
    destruct (roleCancel w), (writeFault w); split; by repeat constructor.
Qed.

(** The events one step appends: reported, and with at most one patch,
    which follows a call of [setRole] and names the role it set. *)
Lemma step_trace ed el w w' :
  step ed el w w' →
  ∃ evs, trace w' = trace w ++ evs ∧ reported evs = true
    ∧ ((Forall (λ e, is_patch e = false) evs ∧ currentRole w' = currentRole w)
       ∨ ∃ role pre post,
           (role = "leader" ∨ role = "follower") ∧ currentRole w' = role
           ∧ Forall (λ e, is_patch e = false) pre
           ∧ Forall (λ e, is_patch e = false) post
           ∧ evs = pre ++ (if labelPodRole el
                           then EvPatch (namespace el) (podName el) role
                                  (negb (patchFault w)) :: post
                           else [])).
Proof.
  intros Hs. destruct Hs as [a w | b w | b w];
    [|exists []; rewrite app_nil_r; split; [done|]; split; [done|]; by left..].
  destruct (action_cases a) as [Hcb | [[tid Hg] | [now ->]]].
  - destruct (callback_inv ed el a w Hcb) as [-> | (role & Hrole & ->)].
    { exists []. rewrite app_nil_r. split; [done|]. split; [done|]. by left. }
    destruct (setRole_trace role (id el) w) as (pre & Htr & Hpre & Hrep).
    assert (Hpf : patchFault (setRole role (id el) w) = patchFault w).
    { destruct (decide (currentRole w = role)) as [E|E];
        [by rewrite setRole_same | by rewrite setRole_transition]. }
    unfold labelStep, patchPodRole. rewrite Hpf.
    destruct (labelPodRole el) eqn:Hl.
    + destruct (patchFault w) eqn:Hp; cbn [fst fmt_Printf trace log negb];
        rewrite Htr, <- !app_assoc; eexists; (split; [reflexivity|]).
      * split; [apply reported_app; [done | reflexivity]|]. right.
        exists role, pre, [EvPrintf "failed to patch pod role: %v" ["patch failed"]].
        split; [done|]. split; [exact (currentRole_setRole _ _ _)|].
        repeat split; try done. by repeat constructor.
      * split; [apply reported_app; [done | reflexivity]|]. right.
        exists role, pre, [].
        split; [done|]. split; [exact (currentRole_setRole _ _ _)|].
        by repeat split.
    + exists pre. split; [done|]. split; [done|]. right.
      exists role, pre, []. rewrite app_nil_r.
      split; [done|]. split; [exact (currentRole_setRole _ _ _)|].
      by repeat split.
  - destruct (goroutine_inv ed el a tid w Hg)
      as [-> | (t & q & w2 & _ & [(_ & _ & Hr & _) _] & -> & _ & _ & evs & Htr & Hq & Hrep)].
    { exists []. rewrite app_nil_r. split; [done|]. split; [done|]. by left. }
    exists evs. rewrite trace_set_phase, currentRole_set_phase.
    split; [done|]. split; [done|]. by left.
  - exists []. rewrite app_nil_r. split; [done|]. split; [done|]. by left.
Qed.

Lemma started_trace ed el w : started ed el w → trace w = [EvGoHealthServer].
Proof.
  intros Hs. by destruct (started_world _ _ _ Hs) as (dir & fs & now & wf & pf & ->).
Qed.

Lemma started_label_edition ed el w :
  started ed el w → labelPodRole el = true → ed = PodLabel.
Proof.
  intros (h & fs & now & wf & pf & Hmain) Hl.
  destruct (main_RunOrDie_config _ _ _ _ _ Hmain) as (_&_&_&_&_&_&_& Hon & _).
  by destruct (Hon Hl).
Qed.

(** X9.  Every label patch the program issues is for the pod and namespace
    the election was started with and sets the role to "leader" or
    "follower"; patches occur only in part_000 with LABEL_POD_ROLE on, so
    main.go never patches. *)
Theorem patches_name_the_pod (ed : Edition) (el : Elector) (w : World) :
  reachable ed el w →
  ∀ ns pod role ok, EvPatch ns pod role ok ∈ trace w →
    ed = PodLabel ∧ labelPodRole el = true
    ∧ ns = namespace el ∧ pod = podName el
    ∧ (role = "leader" ∨ role = "follower").
Proof.
  intros (w0 & Hs & Hr).
  cut (∀ ns pod role ok, EvPatch ns pod role ok ∈ trace w →
         labelPodRole el = true ∧ ns = namespace el ∧ pod = podName el
         ∧ (role = "leader" ∨ role = "follower")).
  { intros H ns pod role ok Hin. destruct (H _ _ _ _ Hin) as (Hl & ? & ? & ?).
    repeat split; try done. by eapply started_label_edition. }
  assert (H0 : ∀ ns pod role ok, EvPatch ns pod role ok ∈ trace w0 →
                 labelPodRole el = true ∧ ns = namespace el ∧ pod = podName el
                 ∧ (role = "leader" ∨ role = "follower")).
  { rewrite (started_trace _ _ _ Hs). intros ns pod role ok Hin.
    apply list_elem_of_singleton in Hin. discriminate. }
  clear Hs. induction Hr as [w | w w1 w' Hstep _ IH]; [exact H0|].
  apply IH. intros ns pod role ok Hin.
  destruct (step_trace _ _ _ _ Hstep) as (evs & Htr & _ & Hcase).
  rewrite Htr in Hin. apply elem_of_app in Hin. destruct Hin as [Hin | Hin];
    [by eapply H0|].
  destruct Hcase as [[Hq _] | (r & pre & post & Hrole & _ & Hpre & Hpost & ->)].
  - rewrite Forall_forall in Hq. by specialize (Hq _ Hin).
  - apply elem_of_app in Hin. destruct Hin as [Hin | Hin].
    { rewrite Forall_forall in Hpre. by specialize (Hpre _ Hin). }
    destruct (labelPodRole el); [|by apply not_elem_of_nil in Hin].
    apply elem_of_cons in Hin. destruct Hin as [[= -> -> -> _] | Hin]; [done|].
    rewrite Forall_forall in Hpost. by specialize (Hpost _ Hin).
Qed.

Lemma boot_started_lab : started PodLabel elector_lab (boot false).
Proof. exists host_lab, ∅, 0%Z, false, false. vm_compute. reflexivity. Qed.

Lemma run_reachable_lab acts :
  reachable PodLabel elector_lab (run PodLabel elector_lab acts (boot false)).
Proof. exists (boot false). split; [apply boot_started_lab | apply run_rtc]. Qed.

Lemma patches_name_the_pod_witness :
  PodLabel = PodLabel ∧ labelPodRole elector_lab = true
  ∧ "default" = namespace elector_lab ∧ "pod-a" = podName elector_lab
  ∧ ("leader" = "leader" ∨ "leader" = "follower").
Proof.
  refine (patches_name_the_pod PodLabel elector_lab
            (run PodLabel elector_lab [CallOnStartedLeading] (boot false))
            _ "default" "pod-a" "leader" true _).
  - apply run_reachable_lab.
  - apply list_elem_of_In. vm_compute. tauto.
Defined.





(** X14.  Until the first transition the program leaves the status
    directory exactly as it found it: as long as [currentRole] is empty no
    file has been created, changed or removed (markers left by an earlier
    run stay) and no goroutine runs. *)
Theorem untouched_until_first_transition (ed : Edition) (el : Elector) (w0 w : World) :
  reachable_from ed el w0 w →
  currentRole w = "" →
  files w = files w0 ∧ tasks w = [].
Proof.
  intros [Hs Hr]. pose proof (started_coherent _ _ _ Hs) as Hc0.
  revert w Hr.
  refine (rtc_ind_r (λ w, currentRole w = "" → files w = files w0 ∧ tasks w = [])
            w0 _ _); [intros Hrole | intros w1 w Hr Hstep IH Hrole].
  { destruct (coh_role _ _ Hc0) as [[_ ?] | [[E | E] _]]; [done|..];
      rewrite E in Hrole; discriminate. }
  pose proof (coherent_rtc _ _ _ _ Hr Hc0) as Hc1.
  assert (Hrole1 : currentRole w1 = "").
  { destruct (step_paths _ _ _ _ Hstep) as (_ & _ & [E | [E | E]]);
      rewrite E in Hrole; [done | discriminate..]. }
  destruct (IH Hrole1) as [Hf Ht]. rewrite <- Hf.
  destruct Hstep as [a w1 | b w1 | b w1]; [|done..].
  destruct (action_cases a) as [Hcb | [[tid Hg] | [now ->]]]; [| |done].
  - destruct (callback_inv ed el a w1 Hcb) as [-> | (role & Hr' & E)]; [done|].
    rewrite E in Hrole.
    destruct (labelStep_same_control el role (setRole role (id el) w1))
      as [(_ & _ & Hcr & _) _].
    rewrite Hcr, currentRole_setRole in Hrole. destruct Hr' as [-> | ->]; done.
  - destruct (goroutine_inv ed el a tid w1 Hg) as [-> | (t & ? & ? & Hlk & _)];
      [done|]. by rewrite Ht in Hlk.
Qed.

Lemma untouched_until_first_transition_witness :
  let w := run PodLabel elector_a [CallOnNewLeader "pod-a"; TickerFires 0; TimePasses 9]
             (boot false) in
  files w = files (boot false) ∧ tasks w = [].
Proof.
  apply (untouched_until_first_transition PodLabel elector_a).
  - split; [apply boot_started | apply run_rtc].
  - reflexivity.
Defined.






(** ** Transitions at statement grain *)

(** The statements of [setRole], run without interruption, are [setRole]. *)
Lemma setRole_run_setRole role identity w :
  setRole_run 9 (mkCall role identity AtGuard) w = (setRole role identity w, None).
Proof.
  unfold setRole. cbn [setRole_run setRole_step c_stage c_role c_identity].
  destruct (decide (currentRole w = role)); [done|].
  cbn [setRole_run setRole_step c_stage c_role c_identity].
  rewrite !os_Remove_world. unfold os_WriteFile.
  by destruct (roleCancel w), (writeFault _).
Qed.

(** A call run to its return is a sequence of statement steps. *)
Lemma setRole_run_fsteps ed el fuel c w w' :
  setRole_run fuel c w = (w', None) →
  rtc (fstep ed el) (w, InSetRole c) (w', ToLabel (c_role c)).
Proof.
  revert c w. induction fuel as [|fuel IH]; intros c w; cbn; [discriminate|].
  intros Hrun. eapply rtc_l; [apply fstep_statement|].
  destruct (setRole_step c w) as [w1 [c1|]] eqn:Hstep.
  - assert (c_role c1 = c_role c) as <-.
    { unfold setRole_step in Hstep.
      repeat case_match; simplify_eq; reflexivity. }
    by apply IH.
  - injection Hrun as <-. done.
Qed.

(** Whatever happens at the grain of whole callbacks also happens at
    statement grain. *)
Lemma step_fsteps ed el w w' :
  step ed el w w' → rtc (fstep ed el) (w, Idle) (w', Idle).
Proof.
  intros Hs. destruct Hs as [a w | b w | b w];
    [|apply rtc_once; constructor..].
  assert (Hcall : ∀ role, callback_call el a = Some (mkCall role (id el) AtGuard) →
            rtc (fstep ed el) (w, Idle)
              (labelStep el role (setRole role (id el) w), Idle)).
  { intros role Hc. eapply rtc_l; [by eapply fstep_begin|].
    eapply rtc_r; [|apply fstep_label].
    apply (setRole_run_fsteps ed el 9 (mkCall role (id el) AtGuard)).
    apply setRole_run_setRole. }
  destruct a as [| |identity|tid|tid|tid|tid|now]; cbn [exec].
  - by apply Hcall.
  - by apply Hcall.
  - unfold OnNewLeader. case_decide as Hd; [|done].
    apply Hcall. cbn. by rewrite decide_True.
  - apply rtc_once. apply (fstep_goroutine _ _ (TickerFires tid) tid).
    apply list_elem_of_In; cbn; tauto.
  - apply rtc_once. apply (fstep_goroutine _ _ (CtxDone tid) tid).
    apply list_elem_of_In; cbn; tauto.
  - apply rtc_once. apply (fstep_goroutine _ _ (Decide tid) tid).
    apply list_elem_of_In; cbn; tauto.
  - apply rtc_once. apply (fstep_goroutine _ _ (Perform tid) tid).
    apply list_elem_of_In; cbn; tauto.
  - apply rtc_once. apply fstep_clock.
Qed.

(** What main.go keeps between any two statements: distinct marker
    paths, no goroutine about to rewrite, at most one marker, and the
    removals done so far still in force. *)
Lemma absent_kept th w w' :
  leaderFile w' = leaderFile w → followerFile w' = followerFile w →
  (∀ p, files w !! p = None → files w' !! p = None) →
  (at_most_one_marker w → at_most_one_marker w')
  ∧ (stage_cleared th w → stage_cleared th w').
Proof.
  intros Hl Hf Habs. unfold at_most_one_marker, stage_cleared. rewrite Hl, Hf.
  split; [intros [?|?]; auto|].
  destruct th as [|c|]; try done. destruct (c_stage c); try done; [auto|].
  intros [? ?]; auto.
Qed.

Lemma fstep_MainGo_markers el w th w' th' :
  fstep MainGo el (w, th) (w', th') →
  leaderFile w ≠ followerFile w
  ∧ (∀ i t, tasks w !! i = Some t → t_phase t ≠ WillWrite)
  ∧ at_most_one_marker w ∧ stage_cleared th w →
  leaderFile w' ≠ followerFile w'
  ∧ (∀ i t, tasks w' !! i = Some t → t_phase t ≠ WillWrite)
  ∧ at_most_one_marker w' ∧ stage_cleared th' w'.
Proof.
  intros Hstep (Hd & Hnw & Hone & Hst).
  inversion Hstep as [a c ? Hcall | c ? | role ? | a tid ? ? Ha | now ? ? | b ? ? | b ? ?];
    subst; try done.
  - (* a callback begins *)
    repeat split; try done. cbn.
    destruct a; cbn in Hcall; try discriminate; try case_decide; by simplify_eq.
  - (* one statement of setRole *)
    unfold setRole_step in *. destruct c as [role ident stage]. cbn in *.
    destruct stage as [| | | | |fp|fp|fp ctx|fp ctx]; cbn in *.
    + case_decide; simplify_eq; done.
    + simplify_eq. by destruct (roleCancel w).
    + simplify_eq. rewrite os_Remove_world. cbn. unfold at_most_one_marker. cbn.
      rewrite lookup_delete_eq. auto.
    + simplify_eq. rewrite os_Remove_world. cbn. unfold at_most_one_marker. cbn.
      rewrite lookup_delete_eq, lookup_delete_ne by done. auto.
    + destruct Hst as [Hl Hf]. unfold os_WriteFile in *.
      destruct (writeFault w); simplify_eq; cbn; unfold at_most_one_marker; cbn;
        [auto|].
      split; [done|]. split; [done|]. split; [|done].
      case_decide; [right | left]; by rewrite lookup_insert_ne.
    + by simplify_eq.
    + by simplify_eq.
    + by simplify_eq.
    + simplify_eq. cbn. repeat split; try done. intros i t Hi.
      apply lookup_app_Some in Hi. destruct Hi as [Hi | [_ Hi]]; [by eapply Hnw|].
      apply list_lookup_singleton_Some in Hi. by destruct Hi as [_ <-].
  - (* the label step *)
    destruct (labelStep_same_control el role w) as [(Hl & Hf & _) Ht].
    destruct (labelStep_frame el role w) as [Hfs _].
    rewrite Hl, Hf, Ht. unfold at_most_one_marker. by rewrite Hl, Hf, Hfs.
  - (* a step of a refresh goroutine *)
    destruct (goroutine_inv MainGo el a tid w Ha)
      as [-> | (t & q & w2 & Ht & [(Hl & Hf & _) Hts] & -> & Hq & Hfs & _)];
      [done|].
    destruct (set_phase_globals tid q w2) as (Hl2 & Hf2 & _).
    rewrite Hl2, Hf2, Hl, Hf. split; [done|]. split.
    { intros i t' Hi. rewrite <- Hts in Ht.
      rewrite (tasks_set_phase_insert _ _ _ _ Ht) in Hi.
      apply list_lookup_insert_Some in Hi.
      destruct Hi as [(_ & <- & _) | [_ Hi]].
      - cbn. intros ->. by specialize (Hq eq_refl).
      - rewrite Hts in Hi. by eapply Hnw. }
    assert (Habs : ∀ p, files w !! p = None → files (set_phase tid q w2) !! p = None).
    { intros p Hp. rewrite files_set_phase.
      destruct Hfs as [-> | [[Hw _] | (now & f & Hf0 & ->)]]; [done | |].
      - by destruct (Hnw _ _ Ht).
      - rewrite lookup_insert_ne; [done|]. intros E. rewrite E in Hf0. congruence. }
    destruct (absent_kept th' w (set_phase tid q w2)) as [H1 H2];
      [congruence | congruence | exact Habs |].
    split; [by apply H1 | by apply H2].
Qed.

(** X15.  In main.go, where the refresh goroutine only touches, the two
    markers never exist together, not even between two statements of a
    transition: if the directory held at most one of them at start-up, then
    after any interleaving of the statements of the callbacks (run one
    callback at a time) with the steps of the refresh goroutines at most
    one marker exists. *)
Theorem MainGo_never_two_markers (el : Elector) (w0 w : World) (th : Thread) :
  started MainGo el w0 →
  at_most_one_marker w0 →
  rtc (fstep MainGo el) (w0, Idle) (w, th) →
  at_most_one_marker w.
Proof.
  intros Hs Hone Hr.
  cut (leaderFile w ≠ followerFile w
       ∧ (∀ i t, tasks w !! i = Some t → t_phase t ≠ WillWrite)
       ∧ at_most_one_marker w ∧ stage_cleared th w); [tauto|].
  assert (H0 : leaderFile w0 ≠ followerFile w0
               ∧ (∀ i t, tasks w0 !! i = Some t → t_phase t ≠ WillWrite)
               ∧ at_most_one_marker w0 ∧ stage_cleared Idle w0).
  { split; [apply (coh_paths _ _ (started_coherent _ _ _ Hs))|].
    split; [|done].
    destruct (started_world _ _ _ Hs) as (dir & fs & now & wf & pf & ->). done. }
  clear Hs Hone.
  change (leaderFile (w, th).1 ≠ followerFile (w, th).1
          ∧ (∀ i t, tasks (w, th).1 !! i = Some t → t_phase t ≠ WillWrite)
          ∧ at_most_one_marker (w, th).1 ∧ stage_cleared (w, th).2 (w, th).1).
  change (leaderFile (w0, Idle).1 ≠ followerFile (w0, Idle).1
          ∧ (∀ i t, tasks (w0, Idle).1 !! i = Some t → t_phase t ≠ WillWrite)
          ∧ at_most_one_marker (w0, Idle).1
          ∧ stage_cleared (w0, Idle).2 (w0, Idle).1) in H0.
  induction Hr as [s | [w1 th1] [w2 th2] s' Hstep _ IH]; [exact H0|].
  apply IH. by eapply fstep_MainGo_markers.
Qed.

Lemma MainGo_never_two_markers_witness :
  at_most_one_marker
    (run MainGo elector_a stepping_down_mid_tick (boot false)).
Proof.
  apply (MainGo_never_two_markers elector_a (boot false) _ Idle).
  - apply boot_started.
  - left. reflexivity.
  - generalize (boot false). induction stepping_down_mid_tick as [|a acts IH];
      intros w; cbn; [done|].
    etrans; [apply step_fsteps, step_action | apply IH].
Defined.

(** ** Start-up, exactly *)

Lemma initStatus_dir h :
  (if decide (os_Getenv h "STATUS_DIR" = "") then defaultStatusDir
   else os_Getenv h "STATUS_DIR") = chosen_statusDir h.
Proof.
  unfold os_Getenv, chosen_statusDir. destruct (environ h !! "STATUS_DIR"); done.
Qed.

Lemma main_ready ed h w0 name :
  host_ready ed h → Hostname h = inl name →
  main ed h w0
  = RunOrDie (elector_of ed h name)
      (log EvGoHealthServer
         (set_paths (chosen_statusDir h)
            (filepath_Join (chosen_statusDir h) "leader")
            (filepath_Join (chosen_statusDir h) "follower") w0)).
Proof.
  intros (Hmk & Hcl & Hnew & [lease Hlease] & [ns Hns] & Hpod) Hname.
  unfold main, initStatus. rewrite Hmk, initStatus_dir, Hnew, Hname.
  assert (match InClusterConfig_err h with
          | Some _ =>
              let '(_, exists_) := os_LookupEnv h "KUBECONFIG" in
              if negb exists_ then Some PanicNoKubeconfig
              else PanicErr <$> BuildConfigFromFlags_err h
          | None => None
          end = None) as ->.
  { destruct (InClusterConfig_err h); [|done].
    destruct Hcl as [? | [[k Hk] Hb]]; [done|].
    unfold os_LookupEnv. by rewrite Hk, Hb. }
  unfold os_LookupEnv at 1 2. rewrite Hlease, Hns. cbn [negb].
  unfold elector_of, readPodLabelling. rewrite Hlease, Hns. cbn [default].
  destruct ed; [done|].
  destruct (decide (os_Getenv h "LABEL_POD_ROLE" = "true")) as [E|E].
  - apply os_Getenv_true in E. destruct (Hpod eq_refl E) as [pod Hp].
    unfold os_LookupEnv. rewrite Hp, bool_decide_eq_true_2 by done. done.
  - rewrite bool_decide_eq_false_2; [done|]. by rewrite <- os_Getenv_true.
Qed.

(** X12.  [main] reaches [leaderelection.RunOrDie] exactly when the status
    directory can be made, a cluster configuration is found (in-cluster,
    or else from a KUBECONFIG that is set and loads), the client set and
    the host name are obtained, LEASE_NAME and NAMESPACE are set (the empty
    string counts as set), and, in part_000 with LABEL_POD_ROLE exactly
    "true", POD_NAME is set.  The election then runs under the host name
    as identity, on the lease and namespace given, and the world is the
    initial one with the three path variables set under STATUS_DIR (the
    default when unset or empty). *)
Theorem main_starts_iff (ed : Edition) (h : Host) (w0 : World) (el : Elector) (w : World) :
  main ed h w0 = RunOrDie el w
  ↔ host_ready ed h
    ∧ Hostname h = inl (id el)
    ∧ el = elector_of ed h (id el)
    ∧ w = log EvGoHealthServer
            (set_paths (chosen_statusDir h)
               (filepath_Join (chosen_statusDir h) "leader")
               (filepath_Join (chosen_statusDir h) "follower") w0).
Proof.
  split.
  - intros Hmain.
    assert (Hready : host_ready ed h ∧ ∃ name, Hostname h = inl name).
    { pose proof (main_RunOrDie_config _ _ _ _ _ Hmain)
        as (Hlease & Hns & Hname & _ & _ & _ & _ & Hon & Hoff).
      revert Hmain. unfold main, initStatus.
      destruct (MkdirAll_err h) eqn:Hmk; [discriminate|].
      destruct (InClusterConfig_err h) eqn:Hin.
      - unfold os_LookupEnv at 1.
        destruct (environ h !! "KUBECONFIG") eqn:Hk; cbn [negb]; [|discriminate].
        destruct (BuildConfigFromFlags_err h) eqn:Hb; [discriminate|]. cbn.
        destruct (NewForConfig_err h) eqn:Hnew; [discriminate|]. intros _.
        split; [|by eexists]. repeat split; eauto.
        intros -> Hlab. destruct (labelPodRole el) eqn:Hl.
        + destruct (Hon eq_refl) as (_ & _ & ?). eauto.
        + destruct (Hoff eq_refl); done.
      - destruct (NewForConfig_err h) eqn:Hnew; [discriminate|]. intros _.
        split; [|by eexists]. repeat split; eauto.
        intros -> Hlab. destruct (labelPodRole el) eqn:Hl.
        + destruct (Hon eq_refl) as (_ & _ & ?). eauto.
        + destruct (Hoff eq_refl); done. }
    destruct Hready as [Hready [name Hname]].
    rewrite (main_ready _ _ _ _ Hready Hname) in Hmain.
    injection Hmain as <- <-. cbn [id elector_of]. done.
  - intros (Hready & Hname & -> & ->). cbn [id elector_of] in Hname.
    by apply main_ready.
Qed.

(** Settles the cases of a start-up characterisation. *)
Ltac env_cases :=
  lazy beta iota zeta; repeat split; intros; destruct_and?;
  try done; try discriminate;
  try (exfalso; eapply is_Some_None; eassumption);
  try (by eexists).

(** X13.  On a host where everything before the election's variables
    succeeds, the panic tells which variable is missing: "LEASE_NAME not
    set" exactly when LEASE_NAME is unset; "NAMESPACE not set" exactly
    when LEASE_NAME is set and NAMESPACE is not; the POD_NAME panic
    exactly when both are set and, in part_000, LABEL_POD_ROLE is "true"
    and POD_NAME is unset. *)
Theorem main_panic_names_variable (ed : Edition) (h : Host) (w0 : World) :
  infra_ready h →
  (main ed h w0 = Panic PanicLeaseName ↔ environ h !! "LEASE_NAME" = None)
  ∧ (main ed h w0 = Panic PanicNamespace
     ↔ is_Some (environ h !! "LEASE_NAME") ∧ environ h !! "NAMESPACE" = None)
  ∧ (main ed h w0 = Panic PanicPodName
     ↔ is_Some (environ h !! "LEASE_NAME") ∧ is_Some (environ h !! "NAMESPACE")
       ∧ ed = PodLabel ∧ environ h !! "LABEL_POD_ROLE" = Some "true"
       ∧ environ h !! "POD_NAME" = None).
Proof.
  intros (Hmk & Hcl & Hnew & [name Hname]).
  unfold main, initStatus. rewrite Hmk, Hnew, Hname.
  assert (match InClusterConfig_err h with
          | Some _ =>
              let '(_, exists_) := os_LookupEnv h "KUBECONFIG" in
              if negb exists_ then Some PanicNoKubeconfig
              else PanicErr <$> BuildConfigFromFlags_err h
          | None => None
          end = None) as ->.
  { destruct (InClusterConfig_err h); [|done].
    destruct Hcl as [? | [[k Hk] Hb]]; [done|].
    unfold os_LookupEnv. by rewrite Hk, Hb. }
  unfold readPodLabelling, os_LookupEnv.
  pose proof (os_Getenv_true h "LABEL_POD_ROLE") as Hg.
  destruct (environ h !! "LEASE_NAME") as [lease|]; cbn [negb]; [|env_cases].
  destruct (environ h !! "NAMESPACE") as [ns|]; cbn [negb]; [|env_cases].
  destruct ed; [env_cases|].
  destruct (decide (os_Getenv h "LABEL_POD_ROLE" = "true")) as [E|E].
  - destruct (environ h !! "POD_NAME") as [pod|]; env_cases.
    by apply Hg.
  - env_cases. destruct E. by apply Hg.
Qed.

Lemma main_panic_names_variable_witness :
  (main PodLabel host_no_pod (world0 ∅ 0 false false) = Panic PanicLeaseName
   ↔ environ host_no_pod !! "LEASE_NAME" = None)
  ∧ (main PodLabel host_no_pod (world0 ∅ 0 false false) = Panic PanicNamespace
     ↔ is_Some (environ host_no_pod !! "LEASE_NAME")
       ∧ environ host_no_pod !! "NAMESPACE" = None)
  ∧ (main PodLabel host_no_pod (world0 ∅ 0 false false) = Panic PanicPodName
     ↔ is_Some (environ host_no_pod !! "LEASE_NAME")
       ∧ is_Some (environ host_no_pod !! "NAMESPACE")
       ∧ PodLabel = PodLabel ∧ environ host_no_pod !! "LABEL_POD_ROLE" = Some "true"
       ∧ environ host_no_pod !! "POD_NAME" = None).
Proof.
  apply (main_panic_names_variable PodLabel host_no_pod (world0 ∅ 0 false false)).
  repeat split; [by left | by eexists].
Defined.
